(** * Personal notes manager: the state logic of [App] (src/notes_frontend/src/main.jsx)

    A shallow embedding of the component's state, of its event handlers
    ([handleCreateNote], [handleSelectNote], [handleSaveNote],
    [handleDeleteNote]), of the derived sidebar list [filteredNotes], of the
    start-up load from [localStorage] and of the persistence effect.

    Modelling conventions.
    - A JavaScript string is a [string]: a sequence of code units, here the
      code units 0..255 (the Latin-1 range).  [toLowerCase], [trim] and
      [includes] are the ECMAScript functions restricted to that range.
      The filter is embedded a second time on strings of any code units
      (module [Wide], at the end), where lower-casing depends on the
      context; [filteredNotes_units] relates the two.
    - The timestamps [created] and [updated] are integers ([Z]); the
      subtraction of the sort comparator is exact on them.
    - [Date.now()] and [crypto.randomUUID()] are inputs of the handler that
      calls them.
    - A handler that runs to its end yields [Ok st]; a handler that raises a
      JavaScript exception yields [Throw e st], where [st] carries the state
      updates that were queued before the exception. *)

From Stdlib Require Import List String Ascii NArith ZArith Bool Lia Arith.
From Stdlib Require Import Permutation Sorted.
From Stdlib Require Import DecimalFacts DecimalPos DecimalZ DecimalString.
Import ListNotations.

Local Open Scope string_scope.
Local Open Scope Z_scope.

(** ** JavaScript strings *)

Module JsString.

Definition code (c : ascii) : N := N_of_ascii c.

(** One code unit of [String.prototype.toLowerCase] on a string of code
    units below 256, where lower-casing is a map of code units: A..Z, and
    the Latin-1 capitals U+00C0..U+00DE except the multiplication sign
    U+00D7, move up by 32; everything else is unchanged. *)
Definition lower_char (c : ascii) : ascii :=
  let n := code c in
  if ((65 <=? n) && (n <=? 90))%N then ascii_of_N (n + 32)
  else if ((192 <=? n) && (n <=? 222) && negb (n =? 215))%N
       then ascii_of_N (n + 32)
  else c.

Fixpoint toLowerCase (s : string) : string :=
  match s with
  | EmptyString => EmptyString
  | String c s' => String (lower_char c) (toLowerCase s')
  end.

(** [s.startsWith(q)]. *)
Fixpoint startsWith (s q : string) : bool :=
  match q, s with
  | EmptyString, _ => true
  | String _ _, EmptyString => false
  | String b q', String a s' => Ascii.eqb a b && startsWith s' q'
  end.

(** [s.includes(q)]: [q] occurs in [s] at some position. *)
Fixpoint includes (s q : string) : bool :=
  startsWith s q ||
  match s with
  | EmptyString => false
  | String _ s' => includes s' q
  end.

(** White space of [String.prototype.trim] in the modelled range: TAB, LF,
    VT, FF, CR, SPACE and NO-BREAK SPACE. *)
Definition is_space (c : ascii) : bool :=
  let n := code c in
  (((9 <=? n) && (n <=? 13)) || (n =? 32) || (n =? 160))%N.

Fixpoint trimStart (s : string) : string :=
  match s with
  | EmptyString => EmptyString
  | String c s' => if is_space c then trimStart s' else s
  end.

(** Removes trailing white space: a character is dropped when it is white
    space and everything after it has been dropped. *)
Fixpoint trimEnd (s : string) : string :=
  match s with
  | EmptyString => EmptyString
  | String c s' =>
      match trimEnd s' with
      | EmptyString => if is_space c then EmptyString else String c EmptyString
      | r => String c r
      end
  end.

Definition trim (s : string) : string := trimEnd (trimStart s).

(** Truthiness of a string: non-empty. *)
Definition truthy (s : string) : bool :=
  match s with EmptyString => false | String _ _ => true end.

End JsString.

(** ** Data model *)

(** Note object: [{ id, title, content, created, updated }]. *)
Record Note : Type := mkNote {
  id : string;
  title : string;
  content : string;
  created : Z;
  updated : Z
}.

Record Buffer : Type := mkBuffer {
  buf_title : string;
  buf_content : string
}.

(** The [useState] cells of [App]; [selectedId = None] is [null].
    [notes_ref] is the identity of the array object held in [notes]: every
    [setNotes] stores a newly built array, and React compares the
    dependency [[notes]] of the persistence effect by identity. *)
Record AppState : Type := mkApp {
  notes : list Note;
  notes_ref : nat;
  searchQuery : string;
  selectedId : option string;
  isEditing : bool;
  editBuffer : Buffer
}.

Inductive JsError : Type := TypeError | SyntaxError.

Inductive outcome (A : Type) : Type :=
| Ok (a : A)
| Throw (e : JsError) (a : A).
Arguments Ok {A} a.
Arguments Throw {A} e a.

Definition placeholder : string := "Untitled Note".

Definition setNotes (v : list Note) (st : AppState) : AppState :=
  mkApp v (S (notes_ref st)) (searchQuery st) (selectedId st) (isEditing st)
        (editBuffer st).
Definition setSelectedId (v : option string) (st : AppState) : AppState :=
  mkApp (notes st) (notes_ref st) (searchQuery st) v (isEditing st)
        (editBuffer st).
Definition setIsEditing (v : bool) (st : AppState) : AppState :=
  mkApp (notes st) (notes_ref st) (searchQuery st) (selectedId st) v
        (editBuffer st).
Definition setEditBuffer (v : Buffer) (st : AppState) : AppState :=
  mkApp (notes st) (notes_ref st) (searchQuery st) (selectedId st)
        (isEditing st) v.

(** [n.id === x] for a string [x]. *)
Definition id_is (x : string) (n : Note) : bool := String.eqb (id n) x.

(** [n.id === selectedId], where [selectedId] may be [null]. *)
Definition id_is_sel (sel : option string) (n : Note) : bool :=
  match sel with
  | Some x => id_is x n
  | None => false
  end.

(** [notes.find((n) => n.id === x)]; [None] is [undefined]. *)
Definition find_note (x : string) (l : list Note) : option Note :=
  find (id_is x) l.

(** [notes.findIndex((n) => n.id === x)]; [None] is [-1]. *)
Fixpoint findIndex (x : string) (l : list Note) : option nat :=
  match l with
  | [] => None
  | n :: rest =>
      if id_is x n then Some O
      else option_map S (findIndex x rest)
  end.

(** ** The sidebar list *)

(** The predicate of [notes.filter(...)] in [filteredNotes]. *)
Definition matches (q : string) (n : Note) : bool :=
  JsString.includes (JsString.toLowerCase (title n)) (JsString.toLowerCase q)
  || JsString.includes (JsString.toLowerCase (content n)) (JsString.toLowerCase q).

(** The comparator [(a, b) => b.updated - a.updated]. *)
Definition compareFn (a b : Note) : Z := updated b - updated a.

(** [Array.prototype.sort] is a stable sort (ECMAScript 2019): with a
    comparator that is a consistent ordering, as [compareFn] is, the result
    is determined and is the one a stable insertion sort computes.  [a]
    stays in front of [b] when [compareFn a b <= 0]. *)
Fixpoint sort_insert (cmp : Note -> Note -> Z) (a : Note) (l : list Note)
  : list Note :=
  match l with
  | [] => [a]
  | b :: rest =>
      if cmp a b <=? 0 then a :: b :: rest
      else b :: sort_insert cmp a rest
  end.

Fixpoint js_sort (cmp : Note -> Note -> Z) (l : list Note) : list Note :=
  match l with
  | [] => []
  | a :: rest => sort_insert cmp a (js_sort cmp rest)
  end.

Definition filteredNotes (l : list Note) (q : string) : list Note :=
  js_sort compareFn (filter (matches q) l).

(** ** Event handlers *)

Definition handleCreateNote (now : Z) (uuid : string) (st : AppState)
  : outcome AppState :=
  let newNote := mkNote uuid placeholder "" now now in
  let st1 := setNotes (newNote :: notes st) st in
  let st2 := setSelectedId (Some (id newNote)) st1 in
  let st3 := setIsEditing true st2 in
  Ok (setEditBuffer (mkBuffer placeholder "") st3).

Definition handleSelectNote (x : string) (st : AppState) : outcome AppState :=
  let st1 := setSelectedId (Some x) st in
  let st2 := setIsEditing false st1 in
  match find_note x (notes st) with
  | Some note => Ok (setEditBuffer (mkBuffer (title note) (content note)) st2)
  | None => Throw TypeError st2   (* [note.title] with [note] undefined *)
  end.

(** The object built for a note whose id is the selected one. *)
Definition saved (buf : Buffer) (now : Z) (n : Note) : Note :=
  mkNote (id n)
         (if JsString.truthy (JsString.trim (buf_title buf))
          then buf_title buf else placeholder)
         (buf_content buf)
         (created n)
         now.

(** [prev.map(...)] of [handleSaveNote].  [Date.now()] is called once for
    each note whose id is the selected one: the [k]-th such call returns
    [clock k]. *)
Fixpoint save_map (sel : option string) (buf : Buffer) (clock : nat -> Z)
    (k : nat) (prev : list Note) : list Note :=
  match prev with
  | [] => []
  | n :: rest =>
      if id_is_sel sel n
      then saved buf (clock k) n :: save_map sel buf clock (S k) rest
      else n :: save_map sel buf clock k rest
  end.

Definition handleSaveNote (clock : nat -> Z) (st : AppState)
  : outcome AppState :=
  let st1 :=
    setNotes (save_map (selectedId st) (editBuffer st) clock O (notes st)) st in
  Ok (setIsEditing false st1).

Definition handleDeleteNote (x : string) (st : AppState) : outcome AppState :=
  let idx := findIndex x (notes st) in
  let newNotes := filter (fun n => negb (id_is x n)) (notes st) in
  let st1 := setNotes newNotes st in
  match idx, newNotes with
  | Some i, _ :: _ =>
      match nth_error newNotes (Z.to_nat (Z.max 0 (Z.of_nat i - 1))) with
      | Some n => Ok (setIsEditing false (setSelectedId (Some (id n)) st1))
      | None => Throw TypeError st1   (* [undefined.id] *)
      end
  | _, _ => Ok (setIsEditing false (setSelectedId None st1))
  end.

(** ** The durable slot: [JSON.stringify] and [JSON.parse] *)

Module JSON.

Import JsString.

#[local] Set Warnings "-register-all".

(** A parsed JSON text.  A string is its sequence of code units (a
    [\uXXXX] escape can denote any 16-bit unit); a number is kept as its
    lexeme. *)
Inductive json : Type :=
| JNull
| JBool (b : bool)
| JNumber (lexeme : string)
| JString (units : list N)
| JArray (elems : list json)
| JObject (members : list (list N * json)).

(** *** Serialisation *)

Definition dquote : ascii := ascii_of_N 34.

Definition hex_digit (n : N) : ascii :=
  if (n <? 10)%N then ascii_of_N (48 + n) else ascii_of_N (87 + n).

(** QuoteJSONString on one code unit. *)
Definition quote_char (c : ascii) : string :=
  let n := code c in
  if (n =? 34)%N then String "\" (String dquote "")
  else if (n =? 92)%N then "\\"
  else if (n =? 8)%N then "\b"
  else if (n =? 12)%N then "\f"
  else if (n =? 10)%N then "\n"
  else if (n =? 13)%N then "\r"
  else if (n =? 9)%N then "\t"
  else if (n <? 32)%N
       then "\u00" ++ String (hex_digit (n / 16)) (String (hex_digit (n mod 16)) "")
  else String c "".

Fixpoint quote_body (s : string) : string :=
  match s with
  | EmptyString => EmptyString
  | String c s' => quote_char c ++ quote_body s'
  end.

Definition quote (s : string) : string :=
  String dquote (quote_body s ++ String dquote "").

(** Number::toString on an integer (plain decimal digits, which is what
    JavaScript prints for an integer below 10^21). *)
Definition number (z : Z) : string := NilEmpty.string_of_int (Z.to_int z).

Definition stringify_note (n : Note) : string :=
  "{" ++ quote "id" ++ ":" ++ quote (id n) ++ ","
      ++ quote "title" ++ ":" ++ quote (title n) ++ ","
      ++ quote "content" ++ ":" ++ quote (content n) ++ ","
      ++ quote "created" ++ ":" ++ number (created n) ++ ","
      ++ quote "updated" ++ ":" ++ number (updated n) ++ "}".

Fixpoint join (sep : string) (l : list string) : string :=
  match l with
  | [] => ""
  | [x] => x
  | x :: rest => x ++ sep ++ join sep rest
  end.

(** [JSON.stringify(notes)]. *)
Definition stringify (l : list Note) : string :=
  "[" ++ join "," (map stringify_note l) ++ "]".

(** *** Parsing

    [JSON.parse] as a pushdown automaton that reads the text one code unit
    at a time (the ECMA-404 grammar).  [None] is the [SyntaxError] that
    [JSON.parse] throws. *)

Inductive frame : Type :=
| FArr (acc : list json)                (* inside [ ... ], elements reversed *)
| FObj (acc : list (list N * json))     (* inside { ... }, members reversed *)
| FKey (key : list N).                  (* a member name waiting for its value *)

Inductive strctx : Type := SKey | SVal.

Inductive numst : Type :=
| NMinus | NZero | NInt | NDot | NFrac | NExp | NExpSign | NExpDigits.

Inductive mode : Type :=
| MValue                                  (* a value is expected *)
| MValueOrClose                           (* just after [ *)
| MKeyOrClose                             (* just after { *)
| MKey                                    (* after , in an object *)
| MColon
| MAfter                                  (* after a value in a container *)
| MDone (v : json)                        (* the top-level value is complete *)
| MString (ctx : strctx) (acc : list N)
| MEscape (ctx : strctx) (acc : list N)
| MUnicode (ctx : strctx) (acc : list N) (k : nat) (u : N)
| MNumber (st : numst) (acc : string)
| MLiteral (rest : string) (v : json).

Definition state : Type := (mode * list frame)%type.

Definition is_ws (n : N) : bool :=
  ((n =? 32) || (n =? 9) || (n =? 10) || (n =? 13))%N.

Definition is_digit (n : N) : bool := ((48 <=? n) && (n <=? 57))%N.

Definition hex_value (n : N) : option N :=
  if is_digit n then Some (n - 48)%N
  else if ((97 <=? n) && (n <=? 102))%N then Some (n - 87)%N
  else if ((65 <=? n) && (n <=? 70))%N then Some (n - 55)%N
  else None.

(** A value is complete: hand it to the enclosing container. *)
Definition deliver (v : json) (stack : list frame) : option state :=
  match stack with
  | [] => Some (MDone v, [])
  | FArr acc :: st => Some (MAfter, FArr (v :: acc) :: st)
  | FKey k :: FObj acc :: st => Some (MAfter, FObj ((k, v) :: acc) :: st)
  | _ => None
  end.

(** The first code unit of a value. *)
Definition start_value (c : ascii) (stack : list frame) : option state :=
  let n := code c in
  if (n =? 34)%N then Some (MString SVal [], stack)
  else if (n =? 91)%N then Some (MValueOrClose, FArr [] :: stack)
  else if (n =? 123)%N then Some (MKeyOrClose, FObj [] :: stack)
  else if (n =? 45)%N then Some (MNumber NMinus (String c ""), stack)
  else if (n =? 48)%N then Some (MNumber NZero (String c ""), stack)
  else if is_digit n then Some (MNumber NInt (String c ""), stack)
  else if (n =? 116)%N then Some (MLiteral "rue" (JBool true), stack)
  else if (n =? 102)%N then Some (MLiteral "alse" (JBool false), stack)
  else if (n =? 110)%N then Some (MLiteral "ull" JNull, stack)
  else None.

(** A code unit that follows a complete value. *)
Definition after_value (c : ascii) (s : state) : option state :=
  let n := code c in
  match s with
  | (MDone v, stack) => if is_ws n then Some s else None
  | (MAfter, FArr acc :: st) =>
      if is_ws n then Some s
      else if (n =? 44)%N then Some (MValue, FArr acc :: st)
      else if (n =? 93)%N then deliver (JArray (rev acc)) st
      else None
  | (MAfter, FObj acc :: st) =>
      if is_ws n then Some s
      else if (n =? 44)%N then Some (MKey, FObj acc :: st)
      else if (n =? 125)%N then deliver (JObject (rev acc)) st
      else None
  | _ => None
  end.

Definition append_char (acc : string) (c : ascii) : string :=
  acc ++ String c "".

(** One code unit inside a number: [Some None] ends the number before the
    code unit, [None] is a syntax error. *)
Definition number_step (st : numst) (n : N) : option (option numst) :=
  let is_e := ((n =? 101) || (n =? 69))%N in
  match st with
  | NMinus => if (n =? 48)%N then Some (Some NZero)
              else if is_digit n then Some (Some NInt) else None
  | NZero => if (n =? 46)%N then Some (Some NDot)
             else if is_e then Some (Some NExp) else Some None
  | NInt => if is_digit n then Some (Some NInt)
            else if (n =? 46)%N then Some (Some NDot)
            else if is_e then Some (Some NExp) else Some None
  | NDot => if is_digit n then Some (Some NFrac) else None
  | NFrac => if is_digit n then Some (Some NFrac)
             else if is_e then Some (Some NExp) else Some None
  | NExp => if ((n =? 43) || (n =? 45))%N then Some (Some NExpSign)
            else if is_digit n then Some (Some NExpDigits) else None
  | NExpSign => if is_digit n then Some (Some NExpDigits) else None
  | NExpDigits => if is_digit n then Some (Some NExpDigits) else Some None
  end.

Definition number_complete (st : numst) : bool :=
  match st with
  | NZero | NInt | NFrac | NExpDigits => true
  | _ => false
  end.

Definition escape_unit (n : N) : option N :=
  if (n =? 34)%N then Some 34%N
  else if (n =? 92)%N then Some 92%N
  else if (n =? 47)%N then Some 47%N
  else if (n =? 98)%N then Some 8%N
  else if (n =? 102)%N then Some 12%N
  else if (n =? 110)%N then Some 10%N
  else if (n =? 114)%N then Some 13%N
  else if (n =? 116)%N then Some 9%N
  else None.

Definition step (c : ascii) (s : state) : option state :=
  let n := code c in
  let '(m, stack) := s in
  match m with
  | MValue => if is_ws n then Some s else start_value c stack
  | MValueOrClose =>
      if is_ws n then Some s
      else if (n =? 93)%N
           then match stack with
                | FArr acc :: st => deliver (JArray (rev acc)) st
                | _ => None
                end
      else start_value c stack
  | MKeyOrClose =>
      if is_ws n then Some s
      else if (n =? 34)%N then Some (MString SKey [], stack)
      else if (n =? 125)%N
           then match stack with
                | FObj acc :: st => deliver (JObject (rev acc)) st
                | _ => None
                end
      else None
  | MKey =>
      if is_ws n then Some s
      else if (n =? 34)%N then Some (MString SKey [], stack)
      else None
  | MColon =>
      if is_ws n then Some s
      else if (n =? 58)%N then Some (MValue, stack)
      else None
  | MAfter | MDone _ => after_value c s
  | MString ctx acc =>
      if (n =? 34)%N
      then match ctx with
           | SVal => deliver (JString (rev acc)) stack
           | SKey => Some (MColon, FKey (rev acc) :: stack)
           end
      else if (n =? 92)%N then Some (MEscape ctx acc, stack)
      else if (n <? 32)%N then None
      else Some (MString ctx (n :: acc), stack)
  | MEscape ctx acc =>
      if (n =? 117)%N then Some (MUnicode ctx acc 0 0%N, stack)
      else match escape_unit n with
           | Some u => Some (MString ctx (u :: acc), stack)
           | None => None
           end
  | MUnicode ctx acc k u =>
      match hex_value n with
      | Some h =>
          let u' := (u * 16 + h)%N in
          if Nat.eqb k 3 then Some (MString ctx (u' :: acc), stack)
          else Some (MUnicode ctx acc (S k) u', stack)
      | None => None
      end
  | MNumber st acc =>
      match number_step st n with
      | Some (Some st') => Some (MNumber st' (append_char acc c), stack)
      | Some None =>
          match deliver (JNumber acc) stack with
          | Some s' => after_value c s'
          | None => None
          end
      | None => None
      end
  | MLiteral rest v =>
      match rest with
      | String r rest' =>
          if Ascii.eqb c r
          then match rest' with
               | EmptyString => deliver v stack
               | _ => Some (MLiteral rest' v, stack)
               end
          else None
      | EmptyString => None
      end
  end.

Fixpoint run (text : string) (s : state) : option state :=
  match text with
  | EmptyString => Some s
  | String c rest =>
      match step c s with
      | Some s' => run rest s'
      | None => None
      end
  end.

(** The end of the text: the top-level value must be complete. *)
Definition finish (s : state) : option json :=
  match s with
  | (MDone v, []) => Some v
  | (MNumber st acc, []) => if number_complete st then Some (JNumber acc) else None
  | _ => None
  end.

(** [JSON.parse(text)]. *)
Definition parse (text : string) : option json :=
  match run text (MValue, []) with
  | Some s => finish s
  | None => None
  end.

(** *** Reading a parsed value as a collection of notes *)

Fixpoint string_of_units (l : list N) : option string :=
  match l with
  | [] => Some ""
  | n :: rest =>
      match string_of_units rest with
      | Some s => if (n <? 256)%N then Some (String (ascii_of_N n) s) else None
      | None => None
      end
  end.

(** The value of a number lexeme that is an integer literal. *)
Definition integer_of_lexeme (s : string) : option Z :=
  option_map Z.of_int (NilEmpty.int_of_string s).

Definition units_of_string (s : string) : list N :=
  map code (list_ascii_of_string s).

Definition key_is (name : string) (k : list N) : bool :=
  if list_eq_dec N.eq_dec k (units_of_string name) then true else false.

(** An object with exactly the members [id], [title], [content], [created],
    [updated], in that order, of the types of a Note. *)
Definition note_of_json (v : json) : option Note :=
  match v with
  | JObject [(k1, JString i); (k2, JString t); (k3, JString c);
             (k4, JNumber cr); (k5, JNumber up)] =>
      if key_is "id" k1 && key_is "title" k2 && key_is "content" k3
         && key_is "created" k4 && key_is "updated" k5
      then match string_of_units i, string_of_units t, string_of_units c,
                 integer_of_lexeme cr, integer_of_lexeme up with
           | Some i', Some t', Some c', Some cr', Some up' =>
               Some (mkNote i' t' c' cr' up')
           | _, _, _, _, _ => None
           end
      else None
  | _ => None
  end.

Fixpoint notes_of_elems (l : list json) : option (list Note) :=
  match l with
  | [] => Some []
  | v :: rest =>
      match note_of_json v, notes_of_elems rest with
      | Some n, Some ns => Some (n :: ns)
      | _, _ => None
      end
  end.

Definition notes_of_json (v : json) : option (list Note) :=
  match v with
  | JArray elems => notes_of_elems elems
  | _ => None
  end.

End JSON.


(** ** Start-up *)

Inductive init_outcome : Type :=
| InitNotes (l : list Note)      (* the initial value of [notes] *)
| InitOther (v : JSON.json)      (* a parsed value that is not a collection
                                    of notes is stored as it is *)
| InitThrow (e : JsError).       (* the initialiser throws *)

(** The initialiser of [useState] for [notes]; [stored = None] is the
    [null] that [localStorage.getItem] returns for an absent key. *)
Definition initial_notes (stored : option string) : init_outcome :=
  match stored with
  | None => InitNotes []
  | Some s =>
      if JsString.truthy s
      then match JSON.parse s with
           | Some v =>
               match JSON.notes_of_json v with
               | Some l => InitNotes l
               | None => InitOther v
               end
           | None => InitThrow SyntaxError
           end
      else InitNotes []
  end.

(** ** The persistence effect *)

(** The component together with the durable slot [localStorage["notes"]];
    [effect_dep] is the identity of [notes] at the last run of the effect
    ([None] before the first run). *)
Record World : Type := mkWorld {
  app : AppState;
  effect_dep : option nat;
  localStorage : option string
}.

(** [useEffect(() => localStorage.setItem("notes", JSON.stringify(notes)),
    [notes])]: runs after a render when [notes] is not the array of the
    last run. *)
Definition persist_effect (w : World) : World :=
  let r := notes_ref (app w) in
  match effect_dep w with
  | Some r' =>
      if Nat.eqb r' r then w
      else mkWorld (app w) (Some r) (Some (JSON.stringify (notes (app w))))
  | None => mkWorld (app w) (Some r) (Some (JSON.stringify (notes (app w))))
  end.

(** The first render: [notes] starts as the collection of [st], the slot
    holds whatever [stored] was read, and the effect runs for the first
    time. *)
Definition mount (stored : option string) (st : AppState) : World :=
  persist_effect (mkWorld st None stored).

Inductive operation : Type :=
| OpCreate (now : Z) (uuid : string)
| OpUpdate (clock : nat -> Z)
| OpDelete (x : string).

Definition handler (op : operation) : AppState -> outcome AppState :=
  match op with
  | OpCreate now uuid => handleCreateNote now uuid
  | OpUpdate clock => handleSaveNote clock
  | OpDelete x => handleDeleteNote x
  end.

(** The state that React commits after a handler: the queued updates. *)
Definition committed (o : outcome AppState) : AppState :=
  match o with
  | Ok st => st
  | Throw _ st => st
  end.

(** One operation: the handler, the re-render, the effects. *)
Definition dispatch (op : operation) (w : World) : World :=
  persist_effect
    (mkWorld (committed (handler op (app w))) (effect_dep w) (localStorage w)).

(** The worlds after each operation of a sequence. *)
Fixpoint trace (w : World) (ops : list operation) : list World :=
  match ops with
  | [] => []
  | op :: rest => let w' := dispatch op w in w' :: trace w' rest
  end.

(** The slot holds the serialisation of the collection in memory. *)
Definition in_sync (w : World) : Prop :=
  localStorage w = Some (JSON.stringify (notes (app w))).

(** * Properties *)

(** ** The string functions on examples *)

Example trim_both_ends :
  JsString.trim (String (ascii_of_N 9) "  a b " ++ String (ascii_of_N 10) "")
  = "a b".
Proof. reflexivity. Qed.

Example trim_only_spaces :
  JsString.trim (String (ascii_of_N 160) "   ") = "".
Proof. reflexivity. Qed.

Example toLowerCase_letters :
  JsString.toLowerCase "Hello, WORLD [42]" = "hello, world [42]".
Proof. reflexivity. Qed.

Example toLowerCase_latin1 :
  map JsString.code
      (list_ascii_of_string
         (JsString.toLowerCase
            (String (ascii_of_N 201) (String (ascii_of_N 215) (String (ascii_of_N 223) "")))))
  = [233%N; 215%N; 223%N].
Proof. reflexivity. Qed.

Example includes_examples :
  JsString.includes "shopping list" "ping" = true
  /\ JsString.includes "shopping list" "pong" = false
  /\ JsString.includes "" "" = true.
Proof. repeat split. Qed.

(** ** Lookup by id *)

(** No note of [l] has the id [x]. *)
Definition absent (x : string) (l : list Note) : Prop :=
  forall n, In n l -> id n <> x.

Lemma id_is_true (x : string) (n : Note) : id_is x n = true <-> id n = x.
Proof. unfold id_is. apply String.eqb_eq. Qed.

Lemma id_is_false (x : string) (n : Note) : id_is x n = false <-> id n <> x.
Proof. unfold id_is. apply String.eqb_neq. Qed.

Lemma absent_cons (x : string) (n : Note) (l : list Note) :
  absent x (n :: l) <-> id n <> x /\ absent x l.
Proof.
  unfold absent. split.
  - intros H. split; [apply H; now left | intros m Hm; apply H; now right].
  - intros [Hn Hl] m [<- | Hm]; auto.
Qed.

Lemma find_note_absent (x : string) (l : list Note) :
  find_note x l = None <-> absent x l.
Proof.
  unfold find_note. induction l as [| n l IH]; simpl.
  - split; [intros _ m [] | reflexivity].
  - rewrite absent_cons. destruct (id_is x n) eqn:E.
    + apply id_is_true in E. split; [discriminate | intros [H _]; contradiction].
    + apply id_is_false in E. rewrite IH. tauto.
Qed.

Lemma findIndex_absent (x : string) (l : list Note) :
  findIndex x l = None <-> absent x l.
Proof.
  induction l as [| n l IH]; simpl.
  - split; [intros _ m [] | reflexivity].
  - rewrite absent_cons. destruct (id_is x n) eqn:E.
    + apply id_is_true in E. split; [discriminate | intros [H _]; contradiction].
    + apply id_is_false in E. rewrite <- IH.
      destruct (findIndex x l); simpl; split; try discriminate; try tauto.
      intros [_ H]; discriminate.
Qed.

(** [findIndex] returns the position of the first note with the id. *)
Lemma findIndex_Some (x : string) (l : list Note) (i : nat) :
  findIndex x l = Some i ->
  exists pre n post,
    l = (pre ++ n :: post)%list /\ List.length pre = i /\ id n = x /\ absent x pre.
Proof.
  revert i. induction l as [| m l IH]; simpl; intros i H; [discriminate |].
  destruct (id_is x m) eqn:E.
  - injection H as <-. apply id_is_true in E.
    exists [], m, l. repeat split; auto. intros k [].
  - destruct (findIndex x l) as [j |]; [| discriminate].
    injection H as <-. destruct (IH j eq_refl) as (pre & n & post & -> & Hlen & Hid & Hpre).
    exists (m :: pre), n, post. simpl. repeat split; auto.
    apply absent_cons. split; [now apply id_is_false | assumption].
Qed.

Lemma filter_absent (x : string) (l : list Note) :
  absent x l -> filter (fun n => negb (id_is x n)) l = l.
Proof.
  induction l as [| n l IH]; simpl; intros H; [reflexivity |].
  apply absent_cons in H as [Hn Hl]. apply id_is_false in Hn.
  rewrite Hn. simpl. now rewrite IH.
Qed.

(** ** Selecting a note *)

(** The handler has no guard for an id that no note has: [notes.find]
    returns [undefined] for such an id and [note.title] raises a TypeError.
    The updates queued before the exception set [selectedId] to the missing
    id and leave edit mode; the edit buffer is not touched.  The component
    calls the handler only with the id of a rendered row
    ([ui_handler_never_throws] below), so that no run of the component
    reaches this case. *)
Theorem handleSelectNote_missing_id_throws (x : string) (st : AppState) :
  absent x (notes st) ->
  handleSelectNote x st
  = Throw TypeError (setIsEditing false (setSelectedId (Some x) st)).
Proof.
  intros H. unfold handleSelectNote.
  apply find_note_absent in H. now rewrite H.
Qed.

Definition note_a : Note := mkNote "a" "Groceries" "Milk" 100 100.
Definition note_b : Note := mkNote "b" "Work" "Report" 200 250.
Definition note_c : Note := mkNote "c" "groceries again" "eggs" 300 250.

Definition st_ab : AppState :=
  mkApp [note_a; note_b] 0 "" (Some "a") false (mkBuffer "Groceries" "Milk").

Lemma absent_zz_ab : absent "zz" [note_a; note_b].
Proof.
  intros n [<- | [<- | []]]; simpl; discriminate.
Defined.

Lemma handleSelectNote_missing_id_throws_witness :
  absent "zz" (notes st_ab) /\
  handleSelectNote "zz" st_ab
  = Throw TypeError (mkApp [note_a; note_b] 0 "" (Some "zz") false
                           (mkBuffer "Groceries" "Milk")).
Proof.
  split.
  - exact absent_zz_ab.
  - exact (handleSelectNote_missing_id_throws "zz" st_ab absent_zz_ab).
Defined.

(** A select of an id that a note has ends normally. *)
Lemma handleSelectNote_present (x : string) (st : AppState) (n : Note) :
  find_note x (notes st) = Some n ->
  handleSelectNote x st
  = Ok (setEditBuffer (mkBuffer (title n) (content n))
          (setIsEditing false (setSelectedId (Some x) st))).
Proof. intros H. unfold handleSelectNote. now rewrite H. Qed.

(** ** Saving *)

Lemma save_map_no_match (sel : option string) (buf : Buffer)
    (clock : nat -> Z) (k : nat) (prev : list Note) :
  (forall n, In n prev -> id_is_sel sel n = false) ->
  save_map sel buf clock k prev = prev.
Proof.
  revert k. induction prev as [| n prev IH]; simpl; intros k H; [reflexivity |].
  rewrite (H n (or_introl eq_refl)). f_equal. apply IH.
  intros m Hm. apply H. now right.
Qed.

(** The save handler reports nothing: it returns no value and raises no
    exception.  With a selected id that no note has, the map rebuilds the
    collection with every note as it was, edit mode is left, and the handler
    ends normally.  The form that calls the handler is rendered only when
    the selected id is the id of a note ([ui_selection_always_valid]
    below), so that no run of the component reaches this case. *)
Theorem handleSaveNote_missing_id_silent (clock : nat -> Z) (st : AppState)
    (x : string) :
  selectedId st = Some x ->
  absent x (notes st) ->
  handleSaveNote clock st = Ok (setIsEditing false (setNotes (notes st) st)).
Proof.
  intros Hsel Habs. unfold handleSaveNote. rewrite Hsel.
  rewrite save_map_no_match; [reflexivity |].
  intros n Hn. simpl. apply id_is_false. now apply Habs.
Qed.

Definition st_ab_stale : AppState :=
  mkApp [note_a; note_b] 0 "" (Some "zz") true (mkBuffer "New title" "New text").

Lemma handleSaveNote_missing_id_silent_witness :
  handleSaveNote (fun _ => 500) st_ab_stale
  = Ok (mkApp [note_a; note_b] 1 "" (Some "zz") false
              (mkBuffer "New title" "New text")).
Proof.
  exact (handleSaveNote_missing_id_silent (fun _ => 500) st_ab_stale "zz"
           eq_refl absent_zz_ab).
Defined.

(** The handler at a state with the selected id "zz" that no note has (a
    state that no run of the component reaches): no failure. *)
Lemma handleSaveNote_missing_id_no_failure :
  selectedId st_ab_stale = Some "zz" /\
  absent "zz" (notes st_ab_stale) /\
  ~ (exists e st', handleSaveNote (fun _ => 500) st_ab_stale = Throw e st').
Proof.
  split; [reflexivity | split; [exact absent_zz_ab |]].
  intros (e & st' & H). discriminate H.
Qed.

(** The handler never raises an exception. *)
Lemma handleSaveNote_total (clock : nat -> Z) (st : AppState) :
  exists st', handleSaveNote clock st = Ok st'.
Proof. eexists. reflexivity. Qed.

(** ** Deleting *)

(** C10.  A delete of an id that no note has leaves the collection as it
    was, clears the selection and leaves edit mode, whatever was selected. *)
Theorem handleDeleteNote_missing_id (x : string) (st : AppState) :
  absent x (notes st) ->
  handleDeleteNote x st
  = Ok (setIsEditing false (setSelectedId None (setNotes (notes st) st))).
Proof.
  intros H. unfold handleDeleteNote.
  rewrite (filter_absent x (notes st) H).
  apply findIndex_absent in H. rewrite H. reflexivity.
Qed.

Definition st_ab_editing : AppState :=
  mkApp [note_a; note_b] 0 "" (Some "a") true (mkBuffer "Groceries" "Milk").

Lemma handleDeleteNote_missing_id_witness :
  absent "zz" (notes st_ab_editing) /\
  handleDeleteNote "zz" st_ab_editing
  = Ok (mkApp [note_a; note_b] 1 "" None false (mkBuffer "Groceries" "Milk")).
Proof.
  split.
  - exact absent_zz_ab.
  - exact (handleDeleteNote_missing_id "zz" st_ab_editing absent_zz_ab).
Defined.

Lemma filter_at_first (x : string) (pre post : list Note) (n : Note) :
  absent x pre -> id n = x ->
  filter (fun m => negb (id_is x m)) (pre ++ n :: post)%list
  = (pre ++ filter (fun m => negb (id_is x m)) post)%list.
Proof.
  intros Hpre Hn. rewrite filter_app, (filter_absent x pre Hpre). simpl.
  apply id_is_true in Hn. now rewrite Hn.
Qed.

(** C9.  When the note with id [x] is in the collection, at first position
    [i], the delete handler ends normally, removes the note and leaves edit
    mode, and
    - if no note remains, the selection is cleared;
    - if [i = 0] and notes remain, the new head is selected;
    - if [i > 0], the note that stood at position [i - 1] of the collection
      before the delete is selected. *)
Theorem handleDeleteNote_reselects (x : string) (st : AppState) (i : nat) :
  findIndex x (notes st) = Some i ->
  exists st',
    handleDeleteNote x st = Ok st' /\
    notes st' = filter (fun n => negb (id_is x n)) (notes st) /\
    isEditing st' = false /\
    (notes st' = [] -> selectedId st' = None) /\
    (i = O -> forall h t, notes st' = h :: t -> selectedId st' = Some (id h)) /\
    (forall k, i = S k ->
       exists p, nth_error (notes st) k = Some p /\
                 selectedId st' = Some (id p)).
Proof.
  intros Hidx. unfold handleDeleteNote. rewrite Hidx.
  destruct (findIndex_Some x (notes st) i Hidx)
    as (pre & n & post & Hl & Hlen & Hid & Hpre).
  rewrite Hl, (filter_at_first x pre post n Hpre Hid).
  destruct pre as [| p0 pre].
  - (* the deleted note is the head *)
    simpl in Hlen. subst i. simpl.
    destruct (filter (fun m => negb (id_is x m)) post) as [| h t] eqn:E.
    + eexists. split; [reflexivity |]. simpl.
      repeat split; auto; try discriminate.
    + eexists. split; [reflexivity |]. simpl.
      repeat split; auto; try discriminate.
      intros _ h' t' H. now injection H as <- _.
  - (* a note stands before the deleted one *)
    simpl in Hlen. subst i.
    set (rest := filter (fun m => negb (id_is x m)) post).
    assert (Hnth : forall l, nth_error ((p0 :: pre) ++ l)%list (List.length pre)
                             = nth_error (p0 :: pre) (List.length pre)).
    { intros l. apply nth_error_app1. simpl. lia. }
    assert (Hsome : exists p, nth_error (p0 :: pre) (List.length pre) = Some p).
    { destruct (nth_error (p0 :: pre) (List.length pre)) eqn:E; [eauto |].
      apply nth_error_None in E. simpl in E. lia. }
    destruct Hsome as (p & Hp).
    replace (Z.to_nat (Z.max 0 (Z.of_nat (S (List.length pre)) - 1)))
      with (List.length pre) by lia.
    change ((p0 :: pre) ++ rest)%list with (p0 :: (pre ++ rest))%list at 1.
    cbv iota beta.
    rewrite (Hnth rest), Hp.
    eexists. split; [reflexivity |]. simpl.
    repeat split; auto; try discriminate.
    intros k Hk. injection Hk as <-. exists p. split; [| reflexivity].
    change (p0 :: (pre ++ n :: post))%list with ((p0 :: pre) ++ n :: post)%list.
    now rewrite Hnth.
Qed.

Definition st_abc : AppState :=
  mkApp [note_a; note_b; note_c] 0 "" (Some "b") false (mkBuffer "Work" "Report").

Lemma handleDeleteNote_reselects_witness :
  exists st',
    handleDeleteNote "b" st_abc = Ok st' /\
    notes st' = filter (fun n => negb (id_is "b" n)) (notes st_abc) /\
    isEditing st' = false /\
    (notes st' = [] -> selectedId st' = None) /\
    (1%nat = O -> forall h t, notes st' = h :: t -> selectedId st' = Some (id h)) /\
    (forall k, 1%nat = S k ->
       exists p, nth_error (notes st_abc) k = Some p /\
                 selectedId st' = Some (id p)).
Proof.
  apply (handleDeleteNote_reselects "b" st_abc 1). reflexivity.
Defined.

(** The index that the delete handler reads is inside [newNotes]. *)
Lemma delete_target_defined (x : string) (l : list Note) (i : nat) :
  findIndex x l = Some i ->
  filter (fun n => negb (id_is x n)) l <> [] ->
  exists n,
    nth_error (filter (fun n => negb (id_is x n)) l)
              (Z.to_nat (Z.max 0 (Z.of_nat i - 1))) = Some n.
Proof.
  intros Hidx Hne.
  destruct (findIndex_Some x l i Hidx) as (pre & d & post & -> & Hlen & Hid & Hpre).
  rewrite (filter_at_first x pre post d Hpre Hid) in *.
  match goal with
  | |- exists m, nth_error ?L ?K = Some m =>
      destruct (nth_error L K) as [m |] eqn:E; [now exists m |]
  end.
  apply nth_error_None in E. rewrite length_app in E.
  destruct pre as [| p0 pre]; simpl in *.
  - destruct (filter (fun m => negb (id_is x m)) post); [contradiction |].
    simpl in E. lia.
  - lia.
Qed.

(** The delete handler never raises an exception. *)
Lemma handleDeleteNote_total (x : string) (st : AppState) :
  exists st', handleDeleteNote x st = Ok st'.
Proof.
  unfold handleDeleteNote.
  destruct (findIndex x (notes st)) as [i |] eqn:Hidx; [| eauto].
  destruct (filter (fun n => negb (id_is x n)) (notes st)) as [| h t] eqn:E;
    [eauto |].
  destruct (delete_target_defined x (notes st) i Hidx) as (m & Hm).
  - rewrite E. discriminate.
  - rewrite E in Hm. rewrite Hm. eauto.
Qed.

(** ** Creating *)

(** C8.  The create handler puts the new note at the head of the collection
    and selects it; a lookup of the new id in the new collection returns the
    new note, with [created = updated], the placeholder title and empty
    content. *)
Theorem create_then_get (now : Z) (uuid : string) (st : AppState) :
  exists st' n,
    handleCreateNote now uuid st = Ok st' /\
    notes st' = n :: notes st /\
    selectedId st' = Some uuid /\
    find_note uuid (notes st') = Some n /\
    id n = uuid /\
    created n = updated n /\
    title n = "Untitled Note" /\
    content n = "".
Proof.
  exists (setEditBuffer (mkBuffer placeholder "")
            (setIsEditing true
               (setSelectedId (Some uuid)
                  (setNotes (mkNote uuid placeholder "" now now :: notes st) st)))).
  exists (mkNote uuid placeholder "" now now).
  repeat split.
  unfold find_note. simpl. unfold id_is. simpl.
  now rewrite String.eqb_refl.
Qed.

(** ** The note that a save produces *)

(** The number of [Date.now()] calls that the map of [handleSaveNote] makes
    before it reaches position [i]. *)
Definition calls_before (sel : option string) (i : nat) (prev : list Note)
  : nat :=
  List.length (filter (id_is_sel sel) (firstn i prev)).

Lemma save_map_length (sel : option string) (buf : Buffer) (clock : nat -> Z)
    (k : nat) (prev : list Note) :
  List.length (save_map sel buf clock k prev) = List.length prev.
Proof.
  revert k. induction prev as [| n prev IH]; simpl; intros k; [reflexivity |].
  destruct (id_is_sel sel n); simpl; now rewrite IH.
Qed.

Lemma save_map_nth_match (sel : option string) (buf : Buffer)
    (clock : nat -> Z) (prev : list Note) (i k : nat) (n : Note) :
  nth_error prev i = Some n ->
  id_is_sel sel n = true ->
  nth_error (save_map sel buf clock k prev) i
  = Some (saved buf (clock (k + calls_before sel i prev)%nat) n).
Proof.
  revert i k. induction prev as [| m prev IH]; intros i k Hnth Hsel.
  - destruct i; discriminate.
  - destruct i as [| i]; simpl in Hnth.
    + injection Hnth as ->. simpl. rewrite Hsel. simpl.
      unfold calls_before. simpl. now rewrite Nat.add_0_r.
    + simpl. unfold calls_before. simpl.
      destruct (id_is_sel sel m); simpl.
      * rewrite (IH i (S k) Hnth Hsel). unfold calls_before.
        do 3 f_equal. lia.
      * now rewrite (IH i k Hnth Hsel).
Qed.

Lemma save_map_nth_other (sel : option string) (buf : Buffer)
    (clock : nat -> Z) (prev : list Note) (i k : nat) (n : Note) :
  nth_error prev i = Some n ->
  id_is_sel sel n = false ->
  nth_error (save_map sel buf clock k prev) i = Some n.
Proof.
  revert i k. induction prev as [| m prev IH]; intros i k Hnth Hsel.
  - destruct i; discriminate.
  - destruct i as [| i]; simpl in Hnth.
    + injection Hnth as ->. simpl. now rewrite Hsel.
    + simpl. destruct (id_is_sel sel m); simpl; now apply IH.
Qed.

(** C7, as the code has it.  A save with the selected id [x] ends normally
    and replaces the note [n] at every position [i] that holds the id [x]
    by a note with the same id and creation time, whose title is the
    submitted title, or the placeholder when the submitted title trimmed is
    empty, whose content is the submitted content as it is, and whose
    [updated] is the reading of the clock taken for that note.  [updated] is
    later than [created] exactly when that reading is. *)
Theorem handleSaveNote_updates (clock : nat -> Z) (st : AppState)
    (x : string) (i : nat) (n : Note) :
  selectedId st = Some x ->
  nth_error (notes st) i = Some n ->
  id n = x ->
  exists st' n',
    handleSaveNote clock st = Ok st' /\
    isEditing st' = false /\
    List.length (notes st') = List.length (notes st) /\
    nth_error (notes st') i = Some n' /\
    id n' = id n /\
    created n' = created n /\
    (JsString.trim (buf_title (editBuffer st)) = "" -> title n' = "Untitled Note") /\
    (JsString.trim (buf_title (editBuffer st)) <> "" ->
       title n' = buf_title (editBuffer st)) /\
    content n' = buf_content (editBuffer st) /\
    updated n' = clock (calls_before (Some x) i (notes st)) /\
    (created n' < updated n' <->
       created n < clock (calls_before (Some x) i (notes st))).
Proof.
  intros Hsel Hnth Hid.
  assert (Hm : id_is_sel (Some x) n = true) by (simpl; now apply id_is_true).
  eexists. eexists. split; [reflexivity |].
  rewrite Hsel. cbn [notes isEditing setNotes setIsEditing].
  rewrite (save_map_nth_match (Some x) (editBuffer st) clock (notes st) i 0 n
             Hnth Hm).
  rewrite save_map_length. unfold saved. cbn [id title content created updated].
  repeat split; try reflexivity; auto.
  - intros H. now rewrite H.
  - intros H. destruct (JsString.trim (buf_title (editBuffer st)));
      [contradiction | reflexivity].
Qed.

Definition st_a_blank_title : AppState :=
  mkApp [note_a] 0 "" (Some "a") true (mkBuffer "" "body").

Lemma handleSaveNote_updates_witness :
  exists st' n',
    handleSaveNote (fun _ => 100) st_a_blank_title = Ok st' /\
    isEditing st' = false /\
    List.length (notes st') = 1%nat /\
    nth_error (notes st') 0 = Some n' /\
    id n' = "a" /\
    created n' = 100 /\
    (JsString.trim "" = "" -> title n' = "Untitled Note") /\
    (JsString.trim "" <> "" -> title n' = "") /\
    content n' = "body" /\
    updated n' = 100 /\
    (created n' < updated n' <-> 100 < 100).
Proof.
  exact (handleSaveNote_updates (fun _ => 100) st_a_blank_title "a" 0 note_a
           eq_refl eq_refl eq_refl).
Defined.

(** C7, as the claim states it, fails in its last part: a save at the clock
    reading 100 of a note created at 100, with the title "" and the
    content "body", yields the placeholder title and the content "body",
    but [updated] is not greater than [created]. *)
Lemma handleSaveNote_updated_not_greater :
  exists st' n',
    handleSaveNote (fun _ => 100) st_a_blank_title = Ok st' /\
    find_note "a" (notes st') = Some n' /\
    title n' = "Untitled Note" /\
    content n' = "body" /\
    ~ (updated n' > created n').
Proof.
  eexists. eexists. split; [reflexivity |].
  split; [reflexivity |]. simpl. repeat split. lia.
Qed.

(** ** Persistence *)

(** The effect has only seen arrays that exist: identities are handed out
    in increasing order. *)
Definition deps_seen (w : World) : Prop :=
  match effect_dep w with
  | Some r => (r <= notes_ref (app w))%nat
  | None => True
  end.

(** Each of the three handlers stores exactly one new array in [notes]. *)
Lemma handler_new_array (op : operation) (st : AppState) :
  notes_ref (committed (handler op st)) = S (notes_ref st).
Proof.
  destruct op as [now uuid | clock | x]; simpl; try reflexivity.
  unfold handleDeleteNote.
  destruct (findIndex x (notes st)) as [i |]; [| reflexivity].
  destruct (filter (fun n => negb (id_is x n)) (notes st)) as [| h t];
    [reflexivity |].
  destruct (nth_error (h :: t) (Z.to_nat (Z.max 0 (Z.of_nat i - 1))));
    reflexivity.
Qed.

Lemma persist_effect_app (w : World) : app (persist_effect w) = app w.
Proof.
  unfold persist_effect. destruct (effect_dep w) as [r |]; [| reflexivity].
  destruct (Nat.eqb r (notes_ref (app w))); reflexivity.
Qed.

Lemma persist_effect_first_run (w : World) :
  effect_dep w = None ->
  in_sync (persist_effect w) /\ deps_seen (persist_effect w).
Proof.
  intros H. unfold persist_effect, in_sync, deps_seen. rewrite H. simpl.
  split; [reflexivity | lia].
Qed.

Lemma persist_effect_new_array (w : World) (r : nat) :
  effect_dep w = Some r ->
  (r < notes_ref (app w))%nat ->
  in_sync (persist_effect w) /\ deps_seen (persist_effect w).
Proof.
  intros H Hlt. unfold persist_effect, in_sync, deps_seen. rewrite H.
  destruct (Nat.eqb_spec r (notes_ref (app w))) as [E | _]; [lia |].
  simpl. split; [reflexivity | lia].
Qed.

Lemma dispatch_app (op : operation) (w : World) :
  app (dispatch op w) = committed (handler op (app w)).
Proof. unfold dispatch. now rewrite persist_effect_app. Qed.

Lemma dispatch_in_sync (op : operation) (w : World) :
  deps_seen w -> in_sync (dispatch op w) /\ deps_seen (dispatch op w).
Proof.
  intros Hw. unfold dispatch.
  destruct (effect_dep w) as [r |] eqn:E.
  - apply persist_effect_new_array with (r := r); [reflexivity |].
    simpl. rewrite handler_new_array.
    unfold deps_seen in Hw. rewrite E in Hw. lia.
  - now apply persist_effect_first_run.
Qed.

Lemma trace_in_sync (ops : list operation) (w : World) :
  deps_seen w -> Forall in_sync (trace w ops).
Proof.
  revert w. induction ops as [| op ops IH]; intros w Hw; simpl.
  - constructor.
  - destruct (dispatch_in_sync op w Hw) as [Hs Hd].
    constructor; [exact Hs | now apply IH].
Qed.

Lemma mount_in_sync (stored : option string) (st : AppState) :
  in_sync (mount stored st) /\ deps_seen (mount stored st).
Proof. unfold mount. now apply persist_effect_first_run. Qed.

(** The worlds of a trace are the ones the handlers produce, one for each
    operation. *)
Lemma trace_length (ops : list operation) (w : World) :
  List.length (trace w ops) = List.length ops.
Proof.
  revert w. induction ops as [| op ops IH]; intros w; simpl; [reflexivity |].
  now rewrite IH.
Qed.

Example trace_create_save_delete :
  map (fun w => (map id (notes (app w)), localStorage w))
      (trace (mount None (mkApp [] 0 "" None false (mkBuffer "" "")))
             [OpCreate 7 "u1"; OpUpdate (fun _ => 9); OpDelete "u1"])
  = [ (["u1"], Some (JSON.stringify [mkNote "u1" "Untitled Note" "" 7 7]));
      (["u1"], Some (JSON.stringify [mkNote "u1" "Untitled Note" "" 7 9]));
      ([], Some "[]") ].
Proof. vm_compute. reflexivity. Qed.

(** ** Start-up with a malformed slot *)

(** C2, as the code has it.  The initialiser guards only against an absent
    key and an empty string: for content that [JSON.parse] rejects, it
    yields the empty collection when the content is the empty string and
    otherwise lets the SyntaxError of [JSON.parse] escape. *)
Theorem initial_notes_unparsable (s : string) :
  JSON.parse s = None ->
  initial_notes (Some s)
  = if JsString.truthy s then InitThrow SyntaxError else InitNotes [].
Proof.
  intros H. unfold initial_notes. rewrite H. reflexivity.
Qed.

Lemma initial_notes_unparsable_witness :
  JSON.parse "{oops" = None /\
  initial_notes (Some "{oops") = InitThrow SyntaxError.
Proof.
  split.
  - vm_compute. reflexivity.
  - apply (initial_notes_unparsable "{oops"). vm_compute. reflexivity.
Defined.

(** C2, as the claim states it, fails: the content "{oops" does not parse,
    and the initialiser does not yield the empty collection. *)
Lemma initial_notes_malformed_throws :
  JSON.parse "{oops" = None /\
  initial_notes (Some "{oops") <> InitNotes [].
Proof.
  split; [vm_compute; reflexivity | vm_compute; discriminate].
Qed.

(** An absent key and an empty string give the empty collection. *)
Lemma initial_notes_absent : initial_notes None = InitNotes [].
Proof. reflexivity. Qed.

Lemma initial_notes_empty_string : initial_notes (Some "") = InitNotes [].
Proof. reflexivity. Qed.

(** What the effect writes is read back at the next start-up. *)
Example initial_notes_reads_back :
  initial_notes (Some (JSON.stringify [note_a; note_b; note_c]))
  = InitNotes [note_a; note_b; note_c].
Proof. vm_compute. reflexivity. Qed.

Example stringify_escapes :
  JSON.stringify [mkNote "i" (String (ascii_of_N 34) "q\") (String (ascii_of_N 10) "") 1 (-2)]
  = "[{" ++ JSON.quote "id" ++ ":" ++ JSON.quote "i" ++ ","
         ++ JSON.quote "title" ++ ":"
         ++ String (ascii_of_N 34) ("\" ++ String (ascii_of_N 34) "q\\" ++ String (ascii_of_N 34) ",")
         ++ JSON.quote "content" ++ ":"
         ++ String (ascii_of_N 34) ("\n" ++ String (ascii_of_N 34) ",")
         ++ JSON.quote "created" ++ ":1,"
         ++ JSON.quote "updated" ++ ":-2}]".
Proof. vm_compute. reflexivity. Qed.

Example parse_reads_escapes :
  option_map JSON.notes_of_json
    (JSON.parse
       (JSON.stringify
          [mkNote "i" (String (ascii_of_N 34) "q\") (String (ascii_of_N 10) "") 1 (-2)]))
  = Some (Some [mkNote "i" (String (ascii_of_N 34) "q\") (String (ascii_of_N 10) "") 1 (-2)]).
Proof. vm_compute. reflexivity. Qed.

(** ** The sort of the sidebar list *)

(** [a] may stand in front of [b] in a list ordered by [updated],
    descending. *)
Definition newer_or_same (a b : Note) : Prop := updated b <= updated a.

Lemma sort_insert_perm (cmp : Note -> Note -> Z) (a : Note) (l : list Note) :
  Permutation (sort_insert cmp a l) (a :: l).
Proof.
  induction l as [| b l IH]; simpl.
  - apply Permutation_refl.
  - destruct (cmp a b <=? 0).
    + apply Permutation_refl.
    + apply perm_trans with (b :: a :: l).
      * now apply perm_skip.
      * apply perm_swap.
Qed.

Lemma js_sort_perm (cmp : Note -> Note -> Z) (l : list Note) :
  Permutation (js_sort cmp l) l.
Proof.
  induction l as [| a l IH]; simpl.
  - apply perm_nil.
  - apply perm_trans with (a :: js_sort cmp l).
    + apply sort_insert_perm.
    + now apply perm_skip.
Qed.

Lemma sort_insert_sorted (a : Note) (l : list Note) :
  StronglySorted newer_or_same l ->
  StronglySorted newer_or_same (sort_insert compareFn a l).
Proof.
  induction 1 as [| b l Hs IH Hb]; simpl.
  - constructor; constructor.
  - unfold compareFn at 1. destruct (Z.leb_spec (updated b - updated a) 0) as [Hle | Hgt].
    + constructor; [now constructor |].
      constructor; [unfold newer_or_same; lia |].
      eapply Forall_impl; [| exact Hb].
      unfold newer_or_same. intros c Hc. lia.
    + constructor; [exact IH |].
      apply (Permutation_Forall (Permutation_sym (sort_insert_perm compareFn a l))).
      constructor; [unfold newer_or_same; lia | exact Hb].
Qed.

Lemma js_sort_sorted (l : list Note) :
  StronglySorted newer_or_same (js_sort compareFn l).
Proof.
  induction l as [| a l IH]; simpl.
  - constructor.
  - now apply sort_insert_sorted.
Qed.

(** The notes of [l] whose [updated] is [t], in the order of [l]. *)
Definition with_updated (t : Z) (l : list Note) : list Note :=
  filter (fun n => updated n =? t) l.

(** An inserted note only moves behind notes with another [updated]. *)
Lemma sort_insert_stable (t : Z) (a : Note) (l : list Note) :
  with_updated t (sort_insert compareFn a l) = with_updated t (a :: l).
Proof.
  unfold with_updated. induction l as [| b l IH]; [reflexivity |].
  simpl. unfold compareFn at 1.
  destruct (Z.leb_spec (updated b - updated a) 0) as [Hle | Hgt]; [reflexivity |].
  simpl. rewrite IH. simpl.
  destruct (Z.eqb_spec (updated a) t) as [Ha | Ha];
    destruct (Z.eqb_spec (updated b) t) as [Hb | Hb]; try reflexivity.
  lia.
Qed.

Lemma js_sort_stable (t : Z) (l : list Note) :
  with_updated t (js_sort compareFn l) = with_updated t l.
Proof.
  induction l as [| a l IH]; [reflexivity |].
  simpl js_sort. rewrite sort_insert_stable.
  unfold with_updated in *. simpl. now rewrite IH.
Qed.

Lemma with_updated_cons (t : Z) (a : Note) (l : list Note) :
  with_updated t (a :: l)
  = if updated a =? t then a :: with_updated t l else with_updated t l.
Proof. reflexivity. Qed.

Lemma with_updated_head_bound (a b : Note) (l1 l2 : list Note) :
  Forall (newer_or_same b) l2 ->
  with_updated (updated a) (a :: l1) = with_updated (updated a) (b :: l2) ->
  updated a <= updated b.
Proof.
  intros Hb H. rewrite (with_updated_cons (updated a) a), Z.eqb_refl in H.
  assert (Hin : In a (with_updated (updated a) (b :: l2))).
  { rewrite <- H. now left. }
  apply filter_In in Hin. destruct Hin as [[<- | Hin] _]; [lia |].
  rewrite Forall_forall in Hb. apply (Hb a Hin).
Qed.

(** An ordered list is determined by its runs of equal [updated]. *)
Lemma stable_sort_unique (l1 l2 : list Note) :
  StronglySorted newer_or_same l1 ->
  StronglySorted newer_or_same l2 ->
  (forall t, with_updated t l1 = with_updated t l2) ->
  l1 = l2.
Proof.
  intros H1. revert l2.
  induction H1 as [| a l1 Hs1 IH Ha]; intros l2 H2 Heq.
  - destruct l2 as [| b l2]; [reflexivity |].
    specialize (Heq (updated b)).
    rewrite with_updated_cons, Z.eqb_refl in Heq. discriminate.
  - destruct H2 as [| b l2 Hs2 Hb].
    + specialize (Heq (updated a)).
      rewrite with_updated_cons, Z.eqb_refl in Heq. discriminate.
    + assert (Hab : updated a = updated b).
      { apply Z.le_antisymm.
        - apply (with_updated_head_bound a b l1 l2 Hb). apply Heq.
        - apply (with_updated_head_bound b a l2 l1 Ha). symmetry. apply Heq. }
      assert (Hhead : a = b /\ with_updated (updated a) l1 = with_updated (updated a) l2).
      { specialize (Heq (updated a)).
        rewrite !with_updated_cons, <- Hab, Z.eqb_refl in Heq.
        now injection Heq. }
      destruct Hhead as [<- Htail]. f_equal. apply IH; [exact Hs2 |].
      intros t. destruct (Z.eq_dec (updated a) t) as [<- | Hne]; [exact Htail |].
      specialize (Heq t). rewrite !with_updated_cons in Heq.
      apply Z.eqb_neq in Hne. now rewrite Hne in Heq.
Qed.

(** Whatever algorithm the engine runs, an ordered and stable result is the
    list that [js_sort] computes. *)
Lemma js_sort_determined (l l' : list Note) :
  StronglySorted newer_or_same l' ->
  (forall t, with_updated t l' = with_updated t l) ->
  l' = js_sort compareFn l.
Proof.
  intros Hs Hst. apply stable_sort_unique; [exact Hs | apply js_sort_sorted |].
  intros t. now rewrite Hst, js_sort_stable.
Qed.

(** ** The filter of the sidebar list *)

Lemma startsWith_empty (s : string) : JsString.startsWith s "" = true.
Proof. destruct s; reflexivity. Qed.

Lemma includes_empty (s : string) : JsString.includes s "" = true.
Proof. destruct s; reflexivity. Qed.

Lemma matches_empty (n : Note) : matches "" n = true.
Proof. unfold matches. simpl. now rewrite includes_empty. Qed.

Lemma filter_matches_empty (l : list Note) : filter (matches "") l = l.
Proof.
  induction l as [| n l IH]; simpl; [reflexivity |].
  now rewrite matches_empty, IH.
Qed.

(** C5.  With the empty query the sidebar list holds all the notes of the
    collection, is ordered by [updated], descending, and for every time [t]
    the notes with [updated = t] stand in it in the order in which they
    stand in the collection. *)
Theorem filteredNotes_empty_query_sorted_stable (l : list Note) :
  Permutation (filteredNotes l "") l /\
  StronglySorted (fun a b => updated a >= updated b) (filteredNotes l "") /\
  (forall t : Z,
     filter (fun n => updated n =? t) (filteredNotes l "")
     = filter (fun n => updated n =? t) l).
Proof.
  unfold filteredNotes. rewrite filter_matches_empty.
  split; [apply js_sort_perm | split].
  - generalize (js_sort_sorted l).
    apply StronglySorted_ind with (P := fun l' => StronglySorted (fun a b => updated a >= updated b) l').
    + constructor.
    + intros a l' _ IH Ha. constructor; [exact IH |].
      eapply Forall_impl; [| exact Ha].
      unfold newer_or_same. intros c Hc. lia.
  - intros t. apply (js_sort_stable t l).
Qed.

Example filteredNotes_ties :
  map id (filteredNotes [note_a; note_b; note_c] "") = ["b"; "c"; "a"].
Proof. vm_compute. reflexivity. Qed.

(** ** [includes] and [toLowerCase] on the strings of the model *)

Lemma append_assoc (a b c : string) : (a ++ b) ++ c = a ++ b ++ c.
Proof. induction a as [| x a IH]; simpl; [reflexivity | now rewrite IH]. Qed.

Lemma toLowerCase_append (a b : string) :
  JsString.toLowerCase (a ++ b)
  = JsString.toLowerCase a ++ JsString.toLowerCase b.
Proof. induction a as [| x a IH]; simpl; [reflexivity | now rewrite IH]. Qed.

Lemma startsWith_spec (s q : string) :
  JsString.startsWith s q = true <-> exists post, s = q ++ post.
Proof.
  revert s. induction q as [| b q IH]; intros s.
  - rewrite startsWith_empty. split; [intros _; now exists s | reflexivity].
  - destruct s as [| a s]; simpl.
    + split; [discriminate | intros (post & H); discriminate].
    + rewrite andb_true_iff, Ascii.eqb_eq, IH. split.
      * intros (-> & post & ->). now exists post.
      * intros (post & H). injection H as -> ->. split; [reflexivity | now exists post].
Qed.

Lemma includes_spec (s q : string) :
  JsString.includes s q = true <-> exists pre post, s = pre ++ q ++ post.
Proof.
  induction s as [| a s IH]; cbn [JsString.includes].
  - rewrite orb_false_r, startsWith_spec. split.
    + intros (post & H). now exists "", post.
    + intros (pre & post & H). destruct pre; [now exists post | discriminate].
  - rewrite orb_true_iff, IH, startsWith_spec. split.
    + intros [(post & H) | (pre & post & ->)].
      * now exists "", post.
      * now exists (String a pre), post.
    + intros (pre & post & H). destruct pre as [| b pre].
      * left. now exists post.
      * right. simpl in H. injection H as _ ->. now exists pre, post.
Qed.

Example filteredNotes_query :
  map id (filteredNotes [note_a; note_b; note_c] "GROC") = ["c"; "a"]
  /\ map id (filteredNotes [note_a; note_b; note_c] "rEp") = ["b"]
  /\ filteredNotes [note_a; note_b; note_c] "xyz" = [].
Proof. vm_compute. auto. Qed.

(** ** Reading back what the effect wrote *)

Module JSONFacts.

Import JsString JSON.

(** The parsed form of a serialised note. *)
Definition json_of_note (n : Note) : json :=
  JObject [ (units_of_string "id", JString (units_of_string (id n)));
            (units_of_string "title", JString (units_of_string (title n)));
            (units_of_string "content", JString (units_of_string (content n)));
            (units_of_string "created", JNumber (number (created n)));
            (units_of_string "updated", JNumber (number (updated n))) ].

Lemma run_app (a b : string) (s : state) :
  run (a ++ b) s
  = match run a s with
    | Some s' => run b s'
    | None => None
    end.
Proof.
  revert s. induction a as [| c a IH]; intros s; simpl; [reflexivity |].
  destruct (step c s) as [s' |]; [apply IH | reflexivity].
Qed.

Lemma run_quote_char (c : ascii) (ctx : strctx) (acc : list N)
    (st : list frame) :
  run (quote_char c) (MString ctx acc, st)
  = Some (MString ctx (code c :: acc), st).
Proof.
  destruct c as [[|] [|] [|] [|] [|] [|] [|] [|]]; reflexivity.
Qed.

Lemma run_quote_body (s : string) (ctx : strctx) (acc : list N)
    (st : list frame) :
  run (quote_body s) (MString ctx acc, st)
  = Some (MString ctx (rev (units_of_string s) ++ acc)%list, st).
Proof.
  revert acc. induction s as [| c s IH]; intros acc; [reflexivity |].
  cbn [quote_body]. rewrite run_app, run_quote_char, IH.
  unfold units_of_string. cbn [list_ascii_of_string map rev].
  now rewrite <- app_assoc.
Qed.


Lemma run_cons (c : ascii) (rest : string) (s : state) :
  run (String c rest) s
  = match step c s with
    | Some s' => run rest s'
    | None => None
    end.
Proof. reflexivity. Qed.

Lemma step_close_string (ctx : strctx) (acc : list N) (st : list frame) :
  step dquote (MString ctx acc, st)
  = match ctx with
    | SVal => deliver (JString (rev acc)) st
    | SKey => Some (MColon, FKey (rev acc) :: st)
    end.
Proof. reflexivity. Qed.

Lemma run_quote_value (s : string) (k : list N)
    (acc : list (list N * json)) (st : list frame) :
  run (quote s) (MValue, FKey k :: FObj acc :: st)
  = Some (MAfter, FObj ((k, JString (units_of_string s)) :: acc) :: st).
Proof.
  unfold quote. rewrite run_cons.
  change (step dquote (MValue, FKey k :: FObj acc :: st))
    with (Some (MString SVal [], FKey k :: FObj acc :: st)).
  cbv iota beta. rewrite run_app, run_quote_body, run_cons, step_close_string.
  rewrite List.app_nil_r, List.rev_involutive. reflexivity.
Qed.

(** A quoted string where a member name is expected. *)
Lemma run_quote_key (s : string) (m : mode) (st : list frame) :
  m = MKeyOrClose \/ m = MKey ->
  run (quote s) (m, st) = Some (MColon, FKey (units_of_string s) :: st).
Proof.
  intros Hm. unfold quote. rewrite run_cons.
  assert (H : step dquote (m, st) = Some (MString SKey [], st))
    by (destruct Hm as [-> | ->]; reflexivity).
  rewrite H, run_app, run_quote_body, run_cons, step_close_string.
  rewrite List.app_nil_r, List.rev_involutive. reflexivity.
Qed.

(** *** Numbers *)

Lemma append_empty_r (a : string) : a ++ "" = a.
Proof. induction a as [| c a IH]; simpl; [reflexivity | now rewrite IH]. Qed.

Lemma step_digit (c : ascii) (acc : string) (st : list frame) :
  is_digit (code c) = true ->
  step c (MNumber NInt acc, st) = Some (MNumber NInt (append_char acc c), st).
Proof.
  intros H. cbn [step]. cbv beta zeta. unfold number_step. now rewrite H.
Qed.

Lemma run_digits (d : Decimal.uint) (acc : string) (st : list frame) :
  run (NilEmpty.string_of_uint d) (MNumber NInt acc, st)
  = Some (MNumber NInt (acc ++ NilEmpty.string_of_uint d), st).
Proof.
  revert acc.
  induction d as [| d IH | d IH | d IH | d IH | d IH | d IH | d IH | d IH
                  | d IH | d IH]; intros acc; cbn [NilEmpty.string_of_uint];
    try (rewrite run_cons, step_digit by reflexivity; rewrite IH;
         unfold append_char; now rewrite append_assoc).
  cbn [run]. now rewrite append_empty_r.
Qed.

(** The decimal digits of a positive number start with a digit that is not
    zero. *)
Lemma to_uint_head (p : positive) :
  exists c rest,
    NilEmpty.string_of_uint (Pos.to_uint p) = String c rest /\
    is_digit (code c) = true /\ code c <> 48%N /\
    exists d, rest = NilEmpty.string_of_uint d.
Proof.
  assert (Hn : Decimal.nzhead (Pos.to_uint p) = Pos.to_uint p).
  { pose proof (DecimalPos.Unsigned.to_of (Pos.to_uint p)) as H.
    rewrite DecimalPos.Unsigned.of_to in H. simpl in H.
    pose proof (DecimalPos.Unsigned.to_uint_nonzero p) as Hz.
    unfold Decimal.unorm in H.
    destruct (Decimal.nzhead (Pos.to_uint p)) eqn:E; try (symmetry; exact H).
    contradiction. }
  pose proof (DecimalFacts.nzhead_nonzero (Pos.to_uint p)) as Hnz.
  pose proof (DecimalPos.Unsigned.to_uint_nonnil p) as Hnil.
  rewrite Hn in Hnz.
  destruct (Pos.to_uint p) as [| d | d | d | d | d | d | d | d | d | d];
    [contradiction | exfalso; now apply (Hnz d) | ..];
    cbn [NilEmpty.string_of_uint]; do 2 eexists;
    (split; [reflexivity | split; [reflexivity | split; [discriminate | now exists d]]]).
Qed.

Lemma step_first_digit (c : ascii) (st : list frame) :
  is_digit (code c) = true -> code c <> 48%N ->
  step c (MValue, st) = Some (MNumber NInt (String c ""), st).
Proof.
  destruct c as [[|] [|] [|] [|] [|] [|] [|] [|]]; intros Hd Hz;
    try discriminate Hd; try reflexivity.
  exfalso. now apply Hz.
Qed.

Lemma step_digit_after_minus (c : ascii) (acc : string) (st : list frame) :
  is_digit (code c) = true -> code c <> 48%N ->
  step c (MNumber NMinus acc, st)
  = Some (MNumber NInt (append_char acc c), st).
Proof.
  intros Hd Hz. cbn [step]. cbv beta zeta. unfold number_step.
  apply N.eqb_neq in Hz. now rewrite Hz, Hd.
Qed.

(** The parser reads the digits of an integer as one number lexeme. *)
Lemma run_number (z : Z) (st : list frame) :
  exists ns,
    run (number z) (MValue, st) = Some (MNumber ns (number z), st) /\
    (ns = NZero \/ ns = NInt).
Proof.
  unfold number. destruct z as [| p | p].
  - exists NZero. split; [reflexivity | now left].
  - exists NInt. split; [| now right].
    cbn [Z.to_int NilEmpty.string_of_int].
    destruct (to_uint_head p) as (c & rest & Hs & Hd & Hz & d & ->).
    rewrite Hs, run_cons, (step_first_digit c st Hd Hz), run_digits.
    reflexivity.
  - exists NInt. split; [| now right].
    cbn [Z.to_int NilEmpty.string_of_int].
    destruct (to_uint_head p) as (c & rest & Hs & Hd & Hz & d & ->).
    rewrite Hs, run_cons.
    change (step "-"%char (MValue, st)) with (Some (MNumber NMinus "-", st)).
    cbv beta iota.
    rewrite run_cons, (step_digit_after_minus c "-" st Hd Hz), run_digits.
    reflexivity.
Qed.

(** A number that is the value of a member, followed by a comma. *)
Lemma run_number_comma (z : Z) (rest : string) (k : list N)
    (acc : list (list N * json)) (st : list frame) :
  run (number z ++ "," ++ rest) (MValue, FKey k :: FObj acc :: st)
  = run rest (MKey, FObj ((k, JNumber (number z)) :: acc) :: st).
Proof.
  rewrite run_app.
  destruct (run_number z (FKey k :: FObj acc :: st)) as (ns & -> & [-> | ->]);
    reflexivity.
Qed.

(** A number that is the value of the last member of an array element. *)
Lemma run_number_close (z : Z) (k : list N) (acc : list (list N * json))
    (a : list json) (st : list frame) :
  run (number z ++ "}") (MValue, FKey k :: FObj acc :: FArr a :: st)
  = Some (MAfter,
          FArr (JObject (rev ((k, JNumber (number z)) :: acc)) :: a) :: st).
Proof.
  rewrite run_app.
  destruct (run_number z (FKey k :: FObj acc :: FArr a :: st))
    as (ns & -> & [-> | ->]); reflexivity.
Qed.

(** *** Notes and collections *)

Lemma run_open_object (m : mode) (st : list frame) :
  m = MValue \/ m = MValueOrClose ->
  run "{" (m, st) = Some (MKeyOrClose, FObj [] :: st).
Proof. intros [-> | ->]; reflexivity. Qed.

Lemma run_colon (st : list frame) : run ":" (MColon, st) = Some (MValue, st).
Proof. reflexivity. Qed.

Lemma run_comma_object (acc : list (list N * json)) (st : list frame) :
  run "," (MAfter, FObj acc :: st) = Some (MKey, FObj acc :: st).
Proof. reflexivity. Qed.

Ltac advance lem := rewrite run_app, lem; cbv beta iota.

Lemma run_stringify_note (n : Note) (m : mode) (a : list json)
    (st : list frame) :
  m = MValue \/ m = MValueOrClose ->
  run (stringify_note n) (m, FArr a :: st)
  = Some (MAfter, FArr (json_of_note n :: a) :: st).
Proof.
  intros Hm. unfold stringify_note.
  advance (run_open_object m (FArr a :: st) Hm).
  advance run_quote_key; [| now left]. advance run_colon.
  advance run_quote_value. advance run_comma_object.
  advance run_quote_key; [| now right]. advance run_colon.
  advance run_quote_value. advance run_comma_object.
  advance run_quote_key; [| now right]. advance run_colon.
  advance run_quote_value. advance run_comma_object.
  advance run_quote_key; [| now right]. advance run_colon.
  rewrite run_number_comma.
  advance run_quote_key; [| now right]. advance run_colon.
  rewrite run_number_close. reflexivity.
Qed.

Lemma run_elements (l : list Note) (m : mode) (a : list json) :
  l <> [] ->
  m = MValue \/ m = MValueOrClose ->
  run (join "," (map stringify_note l)) (m, [FArr a])
  = Some (MAfter, [FArr (rev (map json_of_note l) ++ a)%list]).
Proof.
  revert m a. induction l as [| n l IH]; intros m a Hne Hm; [contradiction |].
  destruct l as [| n' l].
  - cbn [map join]. now rewrite run_stringify_note.
  - change (join "," (map stringify_note (n :: n' :: l)))
      with (stringify_note n ++ "," ++ join "," (map stringify_note (n' :: l))).
    advance run_stringify_note; [| exact Hm].
    rewrite run_app. cbn [run]. cbv beta iota.
    change (step ","%char (MAfter, [FArr (json_of_note n :: a)]))
      with (Some (MValue, [FArr (json_of_note n :: a)])).
    cbv beta iota. rewrite IH; [| discriminate | now left].
    cbn [map rev]. now rewrite <- !app_assoc.
Qed.

(** [JSON.parse] reads what [JSON.stringify] wrote. *)
Lemma parse_stringify (l : list Note) :
  parse (stringify l) = Some (JArray (map json_of_note l)).
Proof.
  unfold parse, stringify.
  change ("[" ++ ?x) with (String "[" x). rewrite run_cons.
  change (step "["%char (MValue, [])) with (Some (MValueOrClose, [FArr []])).
  cbv beta iota. destruct l as [| n l].
  - reflexivity.
  - rewrite run_app, run_elements; [| discriminate | now right].
    cbn [run]. rewrite List.app_nil_r.
    change (step "]"%char (MAfter, [FArr (rev (map json_of_note (n :: l)))]))
      with (Some (MDone (JArray (rev (rev (map json_of_note (n :: l))))),
                  @nil frame)).
    cbv beta iota. cbn [finish]. now rewrite rev_involutive.
Qed.

Lemma string_of_units_of_string (s : string) :
  string_of_units (units_of_string s) = Some s.
Proof.
  unfold units_of_string. induction s as [| c s IH]; [reflexivity |].
  cbn [list_ascii_of_string map string_of_units]. rewrite IH.
  unfold code. rewrite ascii_N_embedding.
  pose proof (N_ascii_bounded c) as Hc. apply N.ltb_lt in Hc. now rewrite Hc.
Qed.

Lemma integer_of_lexeme_number (z : Z) :
  integer_of_lexeme (number z) = Some z.
Proof.
  unfold integer_of_lexeme, number.
  rewrite NilEmpty.isi. simpl. now rewrite DecimalZ.of_to.
Qed.

Lemma note_of_json_of_note (n : Note) : note_of_json (json_of_note n) = Some n.
Proof.
  unfold json_of_note, note_of_json.
  rewrite !string_of_units_of_string, !integer_of_lexeme_number.
  destruct n. reflexivity.
Qed.

Lemma notes_of_json_stringified (l : list Note) :
  notes_of_json (JArray (map json_of_note l)) = Some l.
Proof.
  cbn [notes_of_json]. induction l as [| n l IH]; [reflexivity |].
  cbn [map notes_of_elems]. now rewrite note_of_json_of_note, IH.
Qed.

End JSONFacts.

(** The next start-up reads the collection that the effect wrote. *)
Lemma initial_notes_stringify (l : list Note) :
  initial_notes (Some (JSON.stringify l)) = InitNotes l.
Proof.
  unfold initial_notes.
  rewrite JSONFacts.parse_stringify, JSONFacts.notes_of_json_stringified.
  reflexivity.
Qed.

Lemma stringify_injective (l1 l2 : list Note) :
  JSON.stringify l1 = JSON.stringify l2 -> l1 = l2.
Proof.
  intros H. pose proof (initial_notes_stringify l1) as H1.
  rewrite H, initial_notes_stringify in H1. now injection H1.
Qed.

(** ** Persistence, from the handlers to the next start-up *)

(** A start-up from the slot of [w] would read the collection that [w] has
    in memory. *)
Definition reads_back (w : World) : Prop :=
  initial_notes (localStorage w) = InitNotes (notes (app w)).

Lemma in_sync_reads_back (w : World) : in_sync w -> reads_back w.
Proof.
  unfold in_sync, reads_back. intros ->. apply initial_notes_stringify.
Qed.

(** C4.  After the first render of any collection, and after each operation
    of any sequence of creates, saves and deletes, the durable slot holds
    the serialisation of the collection in memory, and the collection that
    the slot holds is the collection in memory. *)
Theorem persistence_never_lags (stored : option string) (st : AppState)
    (ops : list operation) :
  (in_sync (mount stored st) /\ reads_back (mount stored st)) /\
  Forall (fun w => in_sync w /\ reads_back w) (trace (mount stored st) ops).
Proof.
  destruct (mount_in_sync stored st) as [Hs Hd].
  split; [split; [exact Hs | now apply in_sync_reads_back] |].
  eapply Forall_impl; [| apply trace_in_sync; exact Hd].
  intros w Hw. split; [exact Hw | now apply in_sync_reads_back].
Qed.

(** * The rest of the component: what is rendered and the events of the
      rendered elements *)

(** ** Definitions *)

Definition setSearchQuery (v : string) (st : AppState) : AppState :=
  mkApp (notes st) (notes_ref st) v (selectedId st) (isEditing st)
        (editBuffer st).

(** [const selectedNote = notes.find((n) => n.id === selectedId)]. *)
Definition selectedNote (st : AppState) : option Note :=
  find (id_is_sel (selectedId st)) (notes st).

(** The content of [<section className="note-detail">]. *)
Inductive detail : Type :=
| NoNoteSelected                         (* [!selectedNote] *)
| NoteForm (buf : Buffer)                (* [selectedNote && isEditing] *)
| NoteView (n : Note).                   (* [selectedNote && !isEditing] *)

Definition note_detail (st : AppState) : detail :=
  match selectedNote st with
  | None => NoNoteSelected
  | Some n => if isEditing st then NoteForm (editBuffer st) else NoteView n
  end.

(** [title || <i>(untitled)</i>]: [None] is the fallback. *)
Definition shown_title (t : string) : option string :=
  if JsString.truthy t then Some t else None.

(** One [<li>] of the sidebar. *)
Record item : Type := mkItem {
  item_key : string;                     (* [key={note.id}] *)
  item_current : bool;                   (* [note.id === selectedId] *)
  item_title : option string;
  item_updated : Z
}.

Definition note_item (sel : option string) (n : Note) : item :=
  mkItem (id n) (id_is_sel sel n) (shown_title (title n)) (updated n).

(** [filteredNotes.map((note) => <li ...>)]. *)
Definition note_list (st : AppState) : list item :=
  map (note_item (selectedId st)) (filteredNotes (notes st) (searchQuery st)).

(** [filteredNotes.length === 0]: the row "No notes found." is shown. *)
Definition empty_list_shown (st : AppState) : bool :=
  match filteredNotes (notes st) (searchQuery st) with
  | [] => true
  | _ :: _ => false
  end.

Definition LF : ascii := ascii_of_N 10.

(** [content.split("\n")]. *)
Fixpoint split_lines (s : string) : list string :=
  match s with
  | EmptyString => [EmptyString]
  | String c rest =>
      if Ascii.eqb c LF then EmptyString :: split_lines rest
      else match split_lines rest with
           | line :: lines => String c line :: lines
           | [] => [String c EmptyString]
           end
  end.

(** *** Handlers written in the JSX *)

(** [onChange] of the title input and of the textarea:
    [setEditBuffer((buf) => ({ ...buf, title: e.target.value }))]. *)
Definition handleTitleInput (v : string) (st : AppState) : AppState :=
  setEditBuffer (mkBuffer v (buf_content (editBuffer st))) st.

Definition handleContentInput (v : string) (st : AppState) : AppState :=
  setEditBuffer (mkBuffer (buf_title (editBuffer st)) v) st.

(** [onClick] of Cancel. *)
Definition handleCancel (st : AppState) : outcome AppState :=
  let st1 := setIsEditing false st in
  match selectedNote st with
  | Some n => Ok (setEditBuffer (mkBuffer (title n) (content n)) st1)
  | None => Throw TypeError st1          (* [selectedNote.title] *)
  end.

(** [onClick] of Delete: [if (window.confirm(...)) handleDeleteNote(selectedId)].
    With [selectedId] null no id matches. *)
Definition handleDeleteClick (confirmed : bool) (st : AppState)
  : outcome AppState :=
  if confirmed
  then match selectedId st with
       | Some x => handleDeleteNote x st
       | None =>
           Ok (setIsEditing false (setSelectedId None (setNotes (notes st) st)))
       end
  else Ok st.

(** *** The keyboard shortcuts *)

Record KeyboardEvent : Type := mkKey {
  ctrlKey : bool;
  metaKey : bool;
  key : string
}.

Record KeyResult : Type := mkKeyResult {
  defaultPrevented : bool;               (* [e.preventDefault()] was called *)
  searchFocused : bool;                  (* the search input got the focus *)
  key_outcome : outcome AppState
}.

(** The [keydown] listener on [window]. *)
Definition keydown_handler (e : KeyboardEvent) (now : Z) (uuid : string)
    (st : AppState) : KeyResult :=
  let modifier := ctrlKey e || metaKey e in
  let is_n := modifier && String.eqb (JsString.toLowerCase (key e)) "n" in
  let is_f := modifier && String.eqb (JsString.toLowerCase (key e)) "f" in
  mkKeyResult (is_n || is_f) is_f
              (if is_n then handleCreateNote now uuid st else Ok st).

(** *** The events of the rendered elements *)

Inductive ui_event : Type :=
| NewNoteClick (now : Z) (uuid : string)
| KeyDown (e : KeyboardEvent) (now : Z) (uuid : string)
| SearchInput (q : string)
| ItemClick (x : string)
| EditClick
| DeleteClick (confirmed : bool)
| TitleInput (v : string)
| ContentInput (v : string)
| FormSubmit (clock : nat -> Z)
| CancelClick.

(** The element of the event is in the rendered tree.  (The browser's own
    checks of the form, [required] and [maxLength], only take events
    away.) *)
Definition rendered (ev : ui_event) (st : AppState) : bool :=
  match ev with
  | NewNoteClick _ _ | KeyDown _ _ _ | SearchInput _ => true
  | ItemClick x =>
      existsb (id_is x) (filteredNotes (notes st) (searchQuery st))
  | EditClick | DeleteClick _ =>
      match note_detail st with NoteView _ => true | _ => false end
  | TitleInput _ | ContentInput _ | FormSubmit _ | CancelClick =>
      match note_detail st with NoteForm _ => true | _ => false end
  end.

Definition ui_handler (ev : ui_event) (st : AppState) : outcome AppState :=
  match ev with
  | NewNoteClick now uuid => handleCreateNote now uuid st
  | KeyDown e now uuid => key_outcome (keydown_handler e now uuid st)
  | SearchInput q => Ok (setSearchQuery q st)
  | ItemClick x => handleSelectNote x st
  | EditClick => Ok (setIsEditing true st)
  | DeleteClick confirmed => handleDeleteClick confirmed st
  | TitleInput v => Ok (handleTitleInput v st)
  | ContentInput v => Ok (handleContentInput v st)
  | FormSubmit clock => handleSaveNote clock st
  | CancelClick => handleCancel st
  end.

(** One event: nothing happens when its element is not rendered; otherwise
    the handler, the re-render and the effects. *)
Definition ui_dispatch (ev : ui_event) (w : World) : World :=
  if rendered ev (app w)
  then persist_effect
         (mkWorld (committed (ui_handler ev (app w))) (effect_dep w)
                  (localStorage w))
  else w.

Fixpoint ui_run (w : World) (evs : list ui_event) : World :=
  match evs with
  | [] => w
  | ev :: rest => ui_run (ui_dispatch ev w) rest
  end.

(** The state of the first render with the collection [l]. *)
Definition initial_state (l : list Note) : AppState :=
  mkApp l 0 "" None false (mkBuffer "" "").

(** ** Events of rendered elements end normally *)

Lemma selectedNote_find (st : AppState) (x : string) :
  selectedId st = Some x -> selectedNote st = find_note x (notes st).
Proof. intros H. unfold selectedNote, find_note. now rewrite H. Qed.

Lemma selectedNote_null (st : AppState) :
  selectedId st = None -> selectedNote st = None.
Proof.
  intros H. unfold selectedNote. rewrite H. simpl.
  induction (notes st) as [| n l IH]; [reflexivity | exact IH].
Qed.

Lemma find_note_In (x : string) (l : list Note) (n : Note) :
  In n l -> id n = x -> exists m, find_note x l = Some m /\ id m = x.
Proof.
  intros Hin Hid. destruct (find_note x l) as [m |] eqn:E.
  - exists m. split; [reflexivity |].
    apply find_some in E. now apply id_is_true.
  - apply find_note_absent in E. now elim (E n Hin).
Qed.

Lemma filteredNotes_In (l : list Note) (q : string) (n : Note) :
  In n (filteredNotes l q) -> In n l.
Proof.
  intros H. unfold filteredNotes in H.
  apply (Permutation_in n (js_sort_perm compareFn (filter (matches q) l))) in H.
  now apply filter_In in H.
Qed.

Lemma rendered_item (x : string) (st : AppState) :
  rendered (ItemClick x) st = true ->
  exists n, find_note x (notes st) = Some n /\ id n = x.
Proof.
  simpl. intros H. apply existsb_exists in H. destruct H as (n & Hin & Hid).
  apply id_is_true in Hid. apply filteredNotes_In in Hin.
  now apply (find_note_In x (notes st) n).
Qed.

Lemma note_detail_form (st : AppState) (b : Buffer) :
  note_detail st = NoteForm b ->
  exists n, selectedNote st = Some n /\ isEditing st = true.
Proof.
  unfold note_detail. destruct (selectedNote st) as [n |]; [| discriminate].
  destruct (isEditing st); [| discriminate]. now exists n.
Qed.

Lemma note_detail_view (st : AppState) (n : Note) :
  note_detail st = NoteView n ->
  selectedNote st = Some n /\ isEditing st = false.
Proof.
  unfold note_detail. destruct (selectedNote st) as [m |]; [| discriminate].
  destruct (isEditing st); [discriminate |]. intros H. now injection H as ->.
Qed.

Lemma rendered_form (ev : ui_event) (st : AppState) :
  (exists v, ev = TitleInput v) \/ (exists v, ev = ContentInput v)
  \/ (exists c, ev = FormSubmit c) \/ ev = CancelClick ->
  rendered ev st = true ->
  exists n, selectedNote st = Some n /\ isEditing st = true.
Proof.
  intros Hev H.
  assert (Hd : exists b, note_detail st = NoteForm b).
  { destruct Hev as [(v & ->) | [(v & ->) | [(c & ->) | ->]]]; simpl in H;
      destruct (note_detail st) as [| b | n]; try discriminate; now exists b. }
  destruct Hd as (b & Hb). now apply (note_detail_form st b).
Qed.

Lemma rendered_view (ev : ui_event) (st : AppState) :
  ev = EditClick \/ (exists c, ev = DeleteClick c) ->
  rendered ev st = true ->
  exists n, selectedNote st = Some n /\ isEditing st = false.
Proof.
  intros Hev H.
  assert (Hd : exists n, note_detail st = NoteView n).
  { destruct Hev as [-> | (c & ->)]; simpl in H;
      destruct (note_detail st) as [| b | n]; try discriminate; now exists n. }
  destruct Hd as (n & Hn). exists n. now apply note_detail_view.
Qed.

(** X1.  Whatever the state, the handler of an event whose element is
    rendered ends normally: a click on a sidebar row always finds its note,
    Cancel always finds the selected note, and Delete never reads past the
    end of the collection. *)
Theorem ui_handler_never_throws (ev : ui_event) (st : AppState) :
  rendered ev st = true ->
  exists st', ui_handler ev st = Ok st'.
Proof.
  intros H. destruct ev as [now uuid | e now uuid | q | x | | c | v | v | clock |];
    simpl ui_handler; try (eexists; reflexivity).
  - unfold keydown_handler. simpl.
    destruct (_ && _); eexists; reflexivity.
  - destruct (rendered_item x st H) as (n & Hn & _).
    unfold handleSelectNote. rewrite Hn. eexists; reflexivity.
  - unfold handleDeleteClick. destruct c; [| eexists; reflexivity].
    destruct (selectedId st) as [x |]; [| eexists; reflexivity].
    apply handleDeleteNote_total.
  - destruct (rendered_form CancelClick st) as (n & Hn & _); auto.
    unfold handleCancel. rewrite Hn. eexists; reflexivity.
Qed.

Definition st_search_work : AppState :=
  mkApp [note_a; note_b; note_c] 0 "WORK" (Some "a") false
        (mkBuffer "Groceries" "Milk").

Lemma ui_handler_never_throws_witness :
  exists st', ui_handler (ItemClick "b") st_search_work = Ok st'.
Proof.
  apply (ui_handler_never_throws (ItemClick "b") st_search_work).
  vm_compute. reflexivity.
Defined.

(** ** Invariants of the running component *)

(** The selected id, when there is one, is the id of a note. *)
Definition selection_valid (st : AppState) : Prop :=
  forall x, selectedId st = Some x -> exists n, find_note x (notes st) = Some n.

(** In edit mode there is a selected note. *)
Definition editing_has_note (st : AppState) : Prop :=
  isEditing st = true -> exists n, selectedNote st = Some n.

Definition state_ok (st : AppState) : Prop :=
  selection_valid st /\ editing_has_note st.

Definition world_ok (w : World) : Prop :=
  in_sync w /\ effect_dep w = Some (notes_ref (app w)) /\ state_ok (app w).

Lemma find_note_some_iff (x : string) (l : list Note) :
  (exists n, find_note x l = Some n) <-> In x (map id l).
Proof.
  split.
  - intros (n & H). apply find_some in H. destruct H as [Hin Hid].
    apply id_is_true in Hid. rewrite <- Hid. now apply in_map.
  - intros H. apply in_map_iff in H. destruct H as (n & Hid & Hin).
    destruct (find_note_In x l n Hin Hid) as (m & Hm & _). now exists m.
Qed.

Lemma save_map_ids (sel : option string) (buf : Buffer) (clock : nat -> Z)
    (k : nat) (prev : list Note) :
  map id (save_map sel buf clock k prev) = map id prev.
Proof.
  revert k. induction prev as [| n prev IH]; intros k; simpl; [reflexivity |].
  destruct (id_is_sel sel n); simpl; now rewrite IH.
Qed.

Lemma state_ok_not_editing (st : AppState) :
  selection_valid st -> isEditing st = false -> state_ok st.
Proof.
  intros Hs He. split; [exact Hs |]. intros H. rewrite He in H. discriminate.
Qed.

Lemma selection_valid_ext (st st' : AppState) :
  map id (notes st') = map id (notes st) ->
  selectedId st' = selectedId st ->
  selection_valid st -> selection_valid st'.
Proof.
  intros Hn Hs H x Hx. apply find_note_some_iff. rewrite Hn.
  apply find_note_some_iff. apply H. now rewrite <- Hs.
Qed.

Lemma selectedNote_ext (st st' : AppState) :
  notes st' = notes st -> selectedId st' = selectedId st ->
  selectedNote st' = selectedNote st.
Proof. intros Hn Hs. unfold selectedNote. now rewrite Hn, Hs. Qed.

Lemma state_ok_ext (st st' : AppState) :
  notes st' = notes st -> selectedId st' = selectedId st ->
  isEditing st' = isEditing st ->
  state_ok st -> state_ok st'.
Proof.
  intros Hn Hs He [Hv Hedit]. split.
  - apply (selection_valid_ext st st'); auto. now rewrite Hn.
  - intros H. rewrite (selectedNote_ext st st' Hn Hs). apply Hedit.
    now rewrite <- He.
Qed.

(** The shape of the result of a delete. *)
Lemma handleDeleteNote_shape (x : string) (st : AppState) :
  exists sel,
    handleDeleteNote x st
    = Ok (setIsEditing false
            (setSelectedId sel
               (setNotes (filter (fun n => negb (id_is x n)) (notes st)) st)))
    /\ (sel = None
        \/ exists n, In n (filter (fun n => negb (id_is x n)) (notes st))
                     /\ sel = Some (id n)).
Proof.
  unfold handleDeleteNote.
  destruct (findIndex x (notes st)) as [i |] eqn:Hidx;
    [| exists None; split; [reflexivity | now left]].
  destruct (filter (fun n => negb (id_is x n)) (notes st)) as [| h t] eqn:E;
    [exists None; split; [reflexivity | now left] |].
  destruct (delete_target_defined x (notes st) i Hidx) as (m & Hm).
  - rewrite E. discriminate.
  - rewrite E in Hm. rewrite Hm. exists (Some (id m)).
    split; [reflexivity |]. right. exists m. split; [| reflexivity].
    now apply nth_error_In in Hm.
Qed.

Lemma handleDeleteNote_state_ok (x : string) (st : AppState) :
  state_ok (committed (handleDeleteNote x st)).
Proof.
  destruct (handleDeleteNote_shape x st) as (sel & -> & Hsel).
  apply state_ok_not_editing; [| reflexivity].
  intros y Hy. simpl in Hy. subst sel.
  destruct Hsel as [H | (n & Hin & H)]; [discriminate |].
  injection H as ->. simpl.
  destruct (find_note_In (id n) _ n Hin eq_refl) as (m & Hm & _). now exists m.
Qed.

Lemma handleCreateNote_state_ok (now : Z) (uuid : string) (st : AppState) :
  state_ok (committed (handleCreateNote now uuid st)).
Proof.
  assert (Hf : find_note uuid (mkNote uuid placeholder "" now now :: notes st)
               = Some (mkNote uuid placeholder "" now now)).
  { unfold find_note. simpl. unfold id_is. simpl. now rewrite String.eqb_refl. }
  split.
  - intros x Hx. simpl in Hx. injection Hx as <-. simpl. eauto.
  - intros _. unfold selectedNote. simpl. unfold id_is. simpl.
    rewrite String.eqb_refl. eauto.
Qed.

Lemma ui_handler_state_ok (ev : ui_event) (st : AppState) :
  rendered ev st = true ->
  state_ok st ->
  state_ok (committed (ui_handler ev st)).
Proof.
  intros Hr Hok.
  destruct ev as [now uuid | e now uuid | q | x | | c | v | v | clock |];
    simpl ui_handler.
  - apply handleCreateNote_state_ok.
  - unfold keydown_handler. simpl. destruct (_ && _); [| exact Hok].
    apply handleCreateNote_state_ok.
  - now apply (state_ok_ext st).
  - destruct (rendered_item x st Hr) as (n & Hn & _).
    unfold handleSelectNote. rewrite Hn. simpl.
    apply state_ok_not_editing; [| reflexivity].
    intros y Hy. simpl in Hy. injection Hy as <-. simpl. eauto.
  - destruct (rendered_view EditClick st) as (n & Hn & _); auto.
    destruct Hok as [Hv _]. split.
    + now apply (selection_valid_ext st).
    + intros _. rewrite (selectedNote_ext st); auto. eauto.
  - unfold handleDeleteClick. destruct c; [| exact Hok].
    destruct (selectedId st) as [x |] eqn:Hs.
    + apply handleDeleteNote_state_ok.
    + apply state_ok_not_editing; [| reflexivity].
      intros y Hy. discriminate.
  - now apply (state_ok_ext st).
  - now apply (state_ok_ext st).
  - simpl. apply state_ok_not_editing; [| reflexivity].
    destruct Hok as [Hv _].
    apply (selection_valid_ext st); [| reflexivity | exact Hv].
    simpl. apply save_map_ids.
  - destruct (rendered_form CancelClick st) as (n & Hn & _); auto.
    unfold handleCancel. rewrite Hn. simpl.
    apply state_ok_not_editing; [| reflexivity].
    destruct Hok as [Hv _]. now apply (selection_valid_ext st).
Qed.

(** An event either stores a new array in [notes] or leaves [notes]
    alone. *)
Lemma ui_handler_notes (ev : ui_event) (st : AppState) :
  notes_ref (committed (ui_handler ev st)) = S (notes_ref st)
  \/ (notes_ref (committed (ui_handler ev st)) = notes_ref st
      /\ notes (committed (ui_handler ev st)) = notes st).
Proof.
  destruct ev as [now uuid | e now uuid | q | x | | c | v | v | clock |];
    simpl ui_handler; try (right; split; reflexivity);
    try (left; reflexivity).
  - unfold keydown_handler. simpl.
    destruct (_ && _); [left; reflexivity | right; split; reflexivity].
  - unfold handleSelectNote. destruct (find_note x (notes st));
      right; split; reflexivity.
  - unfold handleDeleteClick. destruct c; [| right; split; reflexivity].
    destruct (selectedId st) as [x |]; [| left; reflexivity].
    left. destruct (handleDeleteNote_shape x st) as (sel & -> & _). reflexivity.
  - unfold handleCancel. destruct (selectedNote st);
      right; split; reflexivity.
Qed.

Lemma persist_effect_dep (w : World) :
  effect_dep (persist_effect w) = Some (notes_ref (app w)).
Proof.
  unfold persist_effect. destruct (effect_dep w) as [r |] eqn:E;
    [destruct (Nat.eqb_spec r (notes_ref (app w))) |]; simpl; congruence.
Qed.

Lemma ui_dispatch_world_ok (ev : ui_event) (w : World) :
  world_ok w -> world_ok (ui_dispatch ev w).
Proof.
  intros (Hsync & Hdep & Hok). unfold ui_dispatch.
  destruct (rendered ev (app w)) eqn:Hr;
    [| exact (conj Hsync (conj Hdep Hok))].
  pose proof (ui_handler_state_ok ev (app w) Hr Hok) as Hok'.
  destruct (ui_handler_notes ev (app w)) as [Hnew | [Href Hnotes]].
  - destruct (persist_effect_new_array
                (mkWorld (committed (ui_handler ev (app w))) (effect_dep w)
                         (localStorage w)) (notes_ref (app w)))
      as [Hs _]; [exact Hdep | simpl; lia |].
    split; [exact Hs |]. rewrite persist_effect_app. split; [| exact Hok'].
    apply persist_effect_dep.
  - assert (Hsame : persist_effect
                      (mkWorld (committed (ui_handler ev (app w)))
                               (effect_dep w) (localStorage w))
                    = mkWorld (committed (ui_handler ev (app w)))
                              (effect_dep w) (localStorage w)).
    { unfold persist_effect. cbn [effect_dep app].
      now rewrite Hdep, Href, Nat.eqb_refl. }
    rewrite Hsame. split; [| split]; cbn [app effect_dep localStorage].
    + unfold in_sync in *. cbn [app localStorage]. now rewrite Hnotes.
    + now rewrite Hdep, Href.
    + exact Hok'.
Qed.

Lemma mount_world_ok (stored : option string) (l : list Note) :
  world_ok (mount stored (initial_state l)).
Proof.
  unfold mount, persist_effect. simpl.
  split; [reflexivity | split; [reflexivity |]].
  split.
  - intros x Hx. discriminate.
  - intros H. discriminate.
Qed.

Lemma ui_run_world_ok (evs : list ui_event) (w : World) :
  world_ok w -> world_ok (ui_run w evs).
Proof.
  revert w. induction evs as [| ev evs IH]; intros w Hw; simpl; [exact Hw |].
  apply IH. now apply ui_dispatch_world_ok.
Qed.

Lemma ui_run_app (w : World) (a b : list ui_event) :
  ui_run w (a ++ b)%list = ui_run (ui_run w a) b.
Proof.
  revert w. induction a as [| ev a IH]; intros w; simpl; [reflexivity |].
  apply IH.
Qed.

(** X2.  After any sequence of user events (clicks, typing, search,
    shortcuts, saves, deletes) from the first render of any collection, the
    durable slot holds the serialisation of the collection in memory, and a
    start-up from that slot reads the same collection. *)
Theorem ui_persistence_never_lags (stored : option string) (l : list Note)
    (evs : list ui_event) :
  in_sync (ui_run (mount stored (initial_state l)) evs) /\
  reads_back (ui_run (mount stored (initial_state l)) evs).
Proof.
  destruct (ui_run_world_ok evs _ (mount_world_ok stored l)) as (Hs & _ & _).
  split; [exact Hs | now apply in_sync_reads_back].
Qed.

(** X3.  After any sequence of user events from the first render, the
    selected id is the id of a note of the collection whenever there is
    one, so that the detail panel is the empty panel exactly when nothing
    is selected, and it is the form exactly when the component is in edit
    mode. *)
Theorem ui_selection_always_valid (stored : option string) (l : list Note)
    (evs : list ui_event) :
  let st := app (ui_run (mount stored (initial_state l)) evs) in
  (forall x, selectedId st = Some x ->
             exists n, find_note x (notes st) = Some n /\ id n = x) /\
  (note_detail st = NoNoteSelected <-> selectedId st = None) /\
  ((exists b, note_detail st = NoteForm b) <-> isEditing st = true).
Proof.
  intros st.
  destruct (ui_run_world_ok evs _ (mount_world_ok stored l))
    as (_ & _ & Hv & He).
  fold st in Hv, He. split; [| split].
  - intros x Hx. destruct (Hv x Hx) as (n & Hn). exists n.
    split; [exact Hn |]. apply find_some in Hn. now apply id_is_true.
  - unfold note_detail. split.
    + intros H. destruct (selectedId st) as [x |] eqn:Hs; [| reflexivity].
      destruct (Hv x Hs) as (n & Hn).
      rewrite (selectedNote_find st x Hs), Hn in H.
      destruct (isEditing st); discriminate.
    + intros H. now rewrite (selectedNote_null st H).
  - unfold note_detail. split.
    + intros (b & H). destruct (selectedNote st); [| discriminate].
      destruct (isEditing st); [reflexivity | discriminate].
    + intros H. destruct (He H) as (n & ->). rewrite H. eauto.
Qed.

(** ** What reaches the durable slot, and when *)

(** The handler of the event calls [setNotes]. *)
Definition calls_setNotes (ev : ui_event) : bool :=
  match ev with
  | NewNoteClick _ _ | FormSubmit _ => true
  | KeyDown e _ _ =>
      (ctrlKey e || metaKey e) && String.eqb (JsString.toLowerCase (key e)) "n"
  | DeleteClick confirmed => confirmed
  | _ => false
  end.

Lemma ui_handler_no_setNotes (ev : ui_event) (st : AppState) :
  calls_setNotes ev = false ->
  notes_ref (committed (ui_handler ev st)) = notes_ref st
  /\ notes (committed (ui_handler ev st)) = notes st.
Proof.
  destruct ev as [now uuid | e now uuid | q | x | | c | v | v | clock |];
    simpl; intros H; try discriminate; try (split; reflexivity).
  - unfold keydown_handler. simpl. rewrite H. split; reflexivity.
  - unfold handleSelectNote. destruct (find_note x (notes st)); split; reflexivity.
  - subst c. split; reflexivity.
  - unfold handleCancel. destruct (selectedNote st); split; reflexivity.
Qed.

Lemma app_ui_dispatch (ev : ui_event) (w : World) :
  app (ui_dispatch ev w)
  = if rendered ev (app w) then committed (ui_handler ev (app w)) else app w.
Proof.
  unfold ui_dispatch. destruct (rendered ev (app w)); [| reflexivity].
  now rewrite persist_effect_app.
Qed.

(** X4.  An event whose handler does not call [setNotes] (typing in the
    form, search, selecting, Edit, Cancel, a Delete that is not confirmed, any
    key that is not the new-note shortcut) writes nothing: after any
    history, the durable slot and the collection are what they were before
    the event.  A draft never reaches the slot before Save. *)
Theorem ui_draft_not_persisted (stored : option string) (l : list Note)
    (evs : list ui_event) (ev : ui_event) :
  calls_setNotes ev = false ->
  localStorage (ui_run (mount stored (initial_state l)) (evs ++ [ev])%list)
  = localStorage (ui_run (mount stored (initial_state l)) evs)
  /\ notes (app (ui_run (mount stored (initial_state l)) (evs ++ [ev])%list))
     = notes (app (ui_run (mount stored (initial_state l)) evs)).
Proof.
  intros H. rewrite ui_run_app. cbn [ui_run].
  set (w := ui_run (mount stored (initial_state l)) evs).
  destruct (ui_run_world_ok evs _ (mount_world_ok stored l)) as (_ & Hdep & _).
  fold w in Hdep. unfold ui_dispatch.
  destruct (rendered ev (app w)); [| split; reflexivity].
  destruct (ui_handler_no_setNotes ev (app w) H) as [Href Hnotes].
  unfold persist_effect. cbn [effect_dep app].
  rewrite Hdep, Href, Nat.eqb_refl. cbn [localStorage app]. now split.
Qed.

Lemma ui_draft_not_persisted_witness :
  localStorage
    (ui_run (mount None (initial_state [note_a; note_b]))
            ([ItemClick "a"; EditClick] ++ [TitleInput "draft"])%list)
  = localStorage
      (ui_run (mount None (initial_state [note_a; note_b]))
              [ItemClick "a"; EditClick])
  /\ notes (app (ui_run (mount None (initial_state [note_a; note_b]))
                        ([ItemClick "a"; EditClick] ++ [TitleInput "draft"])%list))
     = notes (app (ui_run (mount None (initial_state [note_a; note_b]))
                          [ItemClick "a"; EditClick])).
Proof.
  apply (ui_draft_not_persisted None [note_a; note_b]
           [ItemClick "a"; EditClick] (TitleInput "draft")).
  reflexivity.
Defined.

(** ** The edit session *)

Definition is_typing (ev : ui_event) : bool :=
  match ev with
  | TitleInput _ | ContentInput _ => true
  | _ => false
  end.

Lemma typing_keeps_form (typing : list ui_event) (w : World) (st : AppState)
    (n : Note) :
  forallb is_typing typing = true ->
  selectedNote st = Some n ->
  (exists b, app w = setEditBuffer b (setIsEditing true st)) ->
  exists b, app (ui_run w typing) = setEditBuffer b (setIsEditing true st).
Proof.
  intros Ht Hn. revert w. induction typing as [| ev typing IH]; intros w Hw;
    [exact Hw |].
  simpl in Ht. apply andb_true_iff in Ht. destruct Ht as [Hev Ht].
  cbn [ui_run]. apply (IH Ht). destruct Hw as (b & Hb).
  rewrite app_ui_dispatch.
  assert (Hr : rendered ev (app w) = true).
  { rewrite Hb. destruct ev; try discriminate Hev;
      simpl; unfold note_detail; rewrite (selectedNote_ext st) by reflexivity;
      now rewrite Hn. }
  rewrite Hr, Hb. destruct ev; try discriminate Hev; simpl;
    eexists; reflexivity.
Qed.

(** X5.  From the view of a note, Edit, any typing in the title and the
    content, then Cancel, gives back the state before Edit with the edit
    buffer holding the title and the content of the stored note: the draft
    is dropped, and the collection, the selection and the search are as
    they were. *)
Theorem cancel_discards_draft (w : World) (n : Note)
    (typing : list ui_event) :
  note_detail (app w) = NoteView n ->
  forallb is_typing typing = true ->
  app (ui_run w (EditClick :: typing ++ [CancelClick])%list)
  = setEditBuffer (mkBuffer (title n) (content n)) (app w).
Proof.
  intros Hv Ht. apply note_detail_view in Hv. destruct Hv as [Hn He].
  cbn [ui_run]. rewrite ui_run_app. cbn [ui_run].
  set (w1 := ui_dispatch EditClick w).
  assert (H1 : exists b, app w1 = setEditBuffer b (setIsEditing true (app w))).
  { exists (editBuffer (app w)). unfold w1. rewrite app_ui_dispatch. simpl.
    unfold note_detail. rewrite Hn, He. reflexivity. }
  destruct (typing_keeps_form typing w1 (app w) n Ht Hn H1) as (b & Hb).
  rewrite app_ui_dispatch, Hb.
  assert (Hsel : selectedNote (setEditBuffer b (setIsEditing true (app w)))
                 = Some n)
    by (rewrite (selectedNote_ext (app w)) by reflexivity; exact Hn).
  simpl rendered. unfold note_detail. rewrite Hsel. simpl.
  unfold handleCancel. rewrite Hsel.
  destruct (app w) as [ns r q sel ed buf]. simpl in He. subst ed. reflexivity.
Qed.

Definition w_view_b : World :=
  ui_run (mount None (initial_state [note_a; note_b])) [ItemClick "b"].

Lemma cancel_discards_draft_witness :
  app (ui_run w_view_b
         (EditClick :: [TitleInput "x"; ContentInput "y"; TitleInput ""]
            ++ [CancelClick])%list)
  = setEditBuffer (mkBuffer "Work" "Report") (app w_view_b).
Proof.
  apply (cancel_discards_draft w_view_b note_b
           [TitleInput "x"; ContentInput "y"; TitleInput ""]);
    reflexivity.
Defined.

(** The string has no character that is not white space. *)
Definition all_space (s : string) : bool :=
  forallb JsString.is_space (list_ascii_of_string s).

Lemma trimEnd_empty_iff (s : string) :
  JsString.trimEnd s = "" <-> all_space s = true.
Proof.
  unfold all_space. induction s as [| c s IH]; simpl; [tauto |].
  destruct (JsString.trimEnd s) as [| d r].
  - destruct (JsString.is_space c); simpl.
    + split; intros _; [now apply IH | reflexivity].
    + split; discriminate.
  - split; [discriminate |]. intros H. apply andb_true_iff in H.
    destruct H as [_ H]. apply IH in H. discriminate.
Qed.

Lemma all_space_trimStart (s : string) :
  all_space (JsString.trimStart s) = all_space s.
Proof.
  unfold all_space. induction s as [| c s IH]; simpl; [reflexivity |].
  destruct (JsString.is_space c) eqn:E; simpl; [exact IH | now rewrite E].
Qed.

Lemma trim_empty_iff (s : string) :
  JsString.trim s = "" <-> all_space s = true.
Proof.
  unfold JsString.trim. now rewrite trimEnd_empty_iff, all_space_trimStart.
Qed.

Lemma truthy_trim (s : string) :
  JsString.truthy (JsString.trim s) = negb (all_space s).
Proof.
  destruct (all_space s) eqn:E.
  - apply trim_empty_iff in E. now rewrite E.
  - destruct (JsString.trim s) eqn:T; [| reflexivity].
    apply trim_empty_iff in T. congruence.
Qed.

Lemma find_save_map (sel : option string) (buf : Buffer) (clock : nat -> Z)
    (k : nat) (l : list Note) :
  find (id_is_sel sel) (save_map sel buf clock k l)
  = option_map (saved buf (clock k)) (find (id_is_sel sel) l).
Proof.
  revert k. induction l as [| n l IH]; intros k; simpl; [reflexivity |].
  destruct (id_is_sel sel n) eqn:E; simpl.
  - assert (E' : id_is_sel sel (saved buf (clock k) n) = true)
      by (destruct sel; exact E).
    now rewrite E'.
  - rewrite E. apply IH.
Qed.

Lemma note_detail_set_buffer (st : AppState) (b b' : Buffer) :
  note_detail st = NoteForm b -> note_detail (setEditBuffer b' st) = NoteForm b'.
Proof.
  intros H. apply note_detail_form in H. destruct H as (n & Hn & He).
  unfold note_detail.
  change (selectedNote (setEditBuffer b' st)) with (selectedNote st).
  rewrite Hn. simpl. now rewrite He.
Qed.

(** X6.  In the form, a title typed, a content typed and Save: the view of
    the selected note is shown, with the same id and creation time, the
    typed content as it is, the typed title as it is (white space around it
    included) unless it has no character other than white space, in which
    case the title is "Untitled Note", and with [updated] the first reading
    of the clock. *)
Theorem typed_then_saved (w : World) (b : Buffer) (t c : string)
    (clock : nat -> Z) :
  note_detail (app w) = NoteForm b ->
  exists n n',
    selectedNote (app w) = Some n /\
    note_detail
      (app (ui_run w [TitleInput t; ContentInput c; FormSubmit clock]))
    = NoteView n' /\
    id n' = id n /\
    created n' = created n /\
    content n' = c /\
    title n' = (if all_space t then "Untitled Note" else t) /\
    updated n' = clock O.
Proof.
  intros Hform.
  destruct (note_detail_form _ _ Hform) as (n & Hn & He).
  exists n, (saved (mkBuffer t c) (clock O) n).
  split; [exact Hn |].
  cbn [ui_run]. set (st := app w) in *.
  assert (A1 : app (ui_dispatch (TitleInput t) w) = handleTitleInput t st).
  { rewrite app_ui_dispatch. fold st. simpl rendered. now rewrite Hform. }
  assert (F1 : note_detail (handleTitleInput t st)
               = NoteForm (mkBuffer t (buf_content (editBuffer st))))
    by (apply (note_detail_set_buffer st b); exact Hform).
  assert (A2 : app (ui_dispatch (ContentInput c) (ui_dispatch (TitleInput t) w))
               = setEditBuffer (mkBuffer t c) st).
  { rewrite app_ui_dispatch, A1. simpl rendered. now rewrite F1. }
  assert (F2 : note_detail (setEditBuffer (mkBuffer t c) st)
               = NoteForm (mkBuffer t c))
    by (apply (note_detail_set_buffer st b); exact Hform).
  rewrite app_ui_dispatch, A2. simpl rendered. rewrite F2.
  cbn [ui_handler handleSaveNote committed].
  unfold note_detail, selectedNote.
  cbn [notes selectedId isEditing setNotes setIsEditing setEditBuffer editBuffer].
  rewrite find_save_map. fold (selectedNote st). rewrite Hn.
  cbn [option_map]. unfold saved. cbn [id title content created updated
                                       buf_title buf_content].
  rewrite truthy_trim. repeat split. now destruct (all_space t).
Qed.

Definition w_form_b : World :=
  ui_run (mount None (initial_state [note_a; note_b])) [ItemClick "b"; EditClick].

Lemma typed_then_saved_witness :
  exists n n',
    selectedNote (app w_form_b) = Some n /\
    note_detail
      (app (ui_run w_form_b
              [TitleInput "  Plan "; ContentInput "x"; FormSubmit (fun _ => 900)]))
    = NoteView n' /\
    id n' = id n /\
    created n' = created n /\
    content n' = "x" /\
    title n' = (if all_space "  Plan " then "Untitled Note" else "  Plan ") /\
    updated n' = 900.
Proof.
  apply (typed_then_saved w_form_b (mkBuffer "Work" "Report") "  Plan " "x"
           (fun _ => 900)).
  reflexivity.
Defined.

(** ** Invariants of the collection *)

(** The id that the event would give to a new note is not in use. *)
Definition fresh_uuid (ev : ui_event) (st : AppState) : Prop :=
  match ev with
  | NewNoteClick _ uuid | KeyDown _ _ uuid => absent uuid (notes st)
  | _ => True
  end.

(** Taking notes out of a collection keeps its ids pairwise different. *)
Lemma filter_keeps_ids_unique (keep : Note -> bool) (notes0 : list Note) :
  NoDup (map id notes0) -> NoDup (map id (filter keep notes0)).
Proof.
  induction notes0 as [| n rest IH]; intros Hids; cbn [filter map];
    [constructor |].
  apply NoDup_cons_iff in Hids. destruct Hids as [Hfirst Hrest].
  destruct (keep n); cbn [map]; [| now apply IH].
  apply NoDup_cons_iff. split; [| now apply IH].
  intros Hin. apply Hfirst. apply in_map_iff in Hin.
  destruct Hin as (m & Hm & Hin). apply filter_In in Hin.
  apply in_map_iff. exists m. tauto.
Qed.

Lemma absent_not_in_ids (x : string) (l : list Note) :
  absent x l <-> ~ In x (map id l).
Proof.
  split.
  - intros H Hin. apply in_map_iff in Hin. destruct Hin as (n & Hid & Hin).
    now apply (H n Hin).
  - intros H n Hin Hid. apply H. rewrite <- Hid. now apply in_map.
Qed.

(** X7.  Every event keeps the ids of the collection pairwise different,
    provided that the id drawn for a new note is not in use. *)
Theorem ui_ids_stay_unique (ev : ui_event) (st : AppState) :
  NoDup (map id (notes st)) ->
  fresh_uuid ev st ->
  NoDup (map id (notes (committed (ui_handler ev st)))).
Proof.
  intros Hnd Hfresh.
  destruct ev as [now uuid | e now uuid | q | x | | c | v | v | clock |];
    simpl ui_handler; try exact Hnd.
  - simpl. constructor; [now apply absent_not_in_ids | exact Hnd].
  - unfold keydown_handler. simpl. destruct (_ && _); [| exact Hnd].
    simpl. constructor; [now apply absent_not_in_ids | exact Hnd].
  - unfold handleSelectNote. destruct (find_note x (notes st)); exact Hnd.
  - unfold handleDeleteClick. destruct c; [| exact Hnd].
    destruct (selectedId st) as [x |]; [| exact Hnd].
    destruct (handleDeleteNote_shape x st) as (sel & -> & _). simpl.
    now apply filter_keeps_ids_unique.
  - simpl. now rewrite save_map_ids.
  - unfold handleCancel. destruct (selectedNote st); exact Hnd.
Qed.

Lemma NoDup_ids_ab : NoDup (map id [note_a; note_b]).
Proof.
  simpl. constructor.
  - intros [H | []]. discriminate H.
  - constructor; [intros [] | constructor].
Defined.

Lemma ui_ids_stay_unique_witness :
  NoDup (map id (notes (committed (ui_handler (NewNoteClick 5 "zz") st_ab)))).
Proof.
  apply (ui_ids_stay_unique (NewNoteClick 5 "zz") st_ab).
  - exact NoDup_ids_ab.
  - exact absent_zz_ab.
Defined.

(** X8.  When the ids of the collection are pairwise different, the keys of
    the sidebar rows are pairwise different and at most one row is marked
    as the current one. *)
Theorem note_list_keys_unique (st : AppState) :
  NoDup (map id (notes st)) ->
  NoDup (map item_key (note_list st)) /\
  (List.length (filter item_current (note_list st)) <= 1)%nat.
Proof.
  intros Hnd.
  assert (Hf : NoDup (map id (filteredNotes (notes st) (searchQuery st)))).
  { unfold filteredNotes.
    apply (Permutation_NoDup
             (Permutation_map id
                (Permutation_sym
                   (js_sort_perm compareFn
                      (filter (matches (searchQuery st)) (notes st)))))).
    now apply filter_keeps_ids_unique. }
  unfold note_list.
  set (l := filteredNotes (notes st) (searchQuery st)) in *.
  split.
  - rewrite map_map. exact Hf.
  - clear Hnd. induction l as [| n l IH]; simpl; [lia |].
    inversion Hf as [| ? ? Hnot Hl]; subst.
    destruct (id_is_sel (selectedId st) n) eqn:E; simpl; [| now apply IH].
    assert (Hnone : filter item_current (map (note_item (selectedId st)) l) = []).
    { clear IH Hl Hf. induction l as [| m l IHl]; simpl; [reflexivity |].
      destruct (id_is_sel (selectedId st) m) eqn:Em.
      - exfalso. apply Hnot. left.
        destruct (selectedId st) as [x |]; [| discriminate].
        simpl in E, Em. apply id_is_true in E. apply id_is_true in Em.
        congruence.
      - apply IHl. intros H. apply Hnot. now right. }
    rewrite Hnone. simpl. lia.
Qed.

Lemma note_list_keys_unique_witness :
  NoDup (map item_key (note_list st_ab)) /\
  (List.length (filter item_current (note_list st_ab)) <= 1)%nat.
Proof.
  apply (note_list_keys_unique st_ab). exact NoDup_ids_ab.
Defined.

(** A title that is shown as it is: it has a character other than white
    space. *)
Definition titled (n : Note) : Prop := all_space (title n) = false.

Lemma titled_placeholder (now : Z) (uuid : string) :
  titled (mkNote uuid placeholder "" now now).
Proof. reflexivity. Qed.

Lemma save_map_titled (sel : option string) (buf : Buffer) (clock : nat -> Z)
    (k : nat) (l : list Note) :
  Forall titled l -> Forall titled (save_map sel buf clock k l).
Proof.
  revert k. induction l as [| n l IH]; intros k H; simpl; [constructor |].
  inversion H as [| ? ? Hn Hl]; subst.
  destruct (id_is_sel sel n); constructor; auto.
  unfold titled, saved. simpl. rewrite truthy_trim.
  destruct (all_space (buf_title buf)) eqn:E; [reflexivity | exact E].
Qed.

(** X9.  If every title of the collection has a character other than white
    space, this is still so after any event, and no sidebar row falls back
    to "(untitled)": the notes that the component creates or saves never
    have a blank title. *)
Theorem ui_titles_never_blank (ev : ui_event) (st : AppState) :
  Forall titled (notes st) ->
  Forall titled (notes (committed (ui_handler ev st))) /\
  Forall (fun it => item_title it <> None)
         (note_list (committed (ui_handler ev st))).
Proof.
  intros H.
  assert (Hnotes : Forall titled (notes (committed (ui_handler ev st)))).
  { destruct ev as [now uuid | e now uuid | q | x | | c | v | v | clock |];
      simpl ui_handler; try exact H.
    - simpl. constructor; [apply titled_placeholder | exact H].
    - unfold keydown_handler. simpl. destruct (_ && _); [| exact H].
      simpl. constructor; [apply titled_placeholder | exact H].
    - unfold handleSelectNote. destruct (find_note x (notes st)); exact H.
    - unfold handleDeleteClick. destruct c; [| exact H].
      destruct (selectedId st) as [x |]; [| exact H].
      destruct (handleDeleteNote_shape x st) as (sel & -> & _). simpl.
      apply Forall_forall. intros n Hn. apply filter_In in Hn.
      rewrite Forall_forall in H. now apply H.
    - simpl. now apply save_map_titled.
    - unfold handleCancel. destruct (selectedNote st); exact H. }
  split; [exact Hnotes |].
  unfold note_list. apply Forall_forall. intros it Hit.
  apply in_map_iff in Hit. destruct Hit as (n & <- & Hn).
  apply filteredNotes_In in Hn. rewrite Forall_forall in Hnotes.
  specialize (Hnotes n Hn). unfold titled in Hnotes. simpl. unfold shown_title.
  destruct (title n); [discriminate Hnotes | discriminate].
Qed.

Lemma ui_titles_never_blank_witness :
  Forall titled (notes (committed (ui_handler (FormSubmit (fun _ => 1)) st_a_blank_title))) /\
  Forall (fun it => item_title it <> None)
         (note_list (committed (ui_handler (FormSubmit (fun _ => 1)) st_a_blank_title))).
Proof.
  apply (ui_titles_never_blank (FormSubmit (fun _ => 1)) st_a_blank_title).
  constructor; [reflexivity | constructor].
Defined.

Definition well_timed (n : Note) : Prop := created n <= updated n.

(** The clock of a save does not read a time before the creation of a note
    of the collection. *)
Definition clock_not_before (ev : ui_event) (st : AppState) : Prop :=
  match ev with
  | FormSubmit clock => forall k n, In n (notes st) -> created n <= clock k
  | _ => True
  end.

Lemma save_map_well_timed (sel : option string) (buf : Buffer)
    (clock : nat -> Z) (k : nat) (l : list Note) :
  (forall j n, In n l -> created n <= clock j) ->
  Forall well_timed l -> Forall well_timed (save_map sel buf clock k l).
Proof.
  revert k. induction l as [| n l IH]; intros k Hc H; simpl; [constructor |].
  inversion H as [| ? ? Hn Hl]; subst.
  assert (Hc' : forall j m, In m l -> created m <= clock j)
    by (intros j m Hm; apply Hc; now right).
  destruct (id_is_sel sel n); constructor; auto.
  unfold well_timed, saved. simpl. apply Hc. now left.
Qed.

(** X10.  [created <= updated] holds for every note after any event if it
    held before, provided that the clock of a save does not read a time
    before the creation of a note; a new note has [created = updated]. *)
Theorem ui_created_le_updated (ev : ui_event) (st : AppState) :
  Forall well_timed (notes st) ->
  clock_not_before ev st ->
  Forall well_timed (notes (committed (ui_handler ev st))).
Proof.
  intros H Hc.
  destruct ev as [now uuid | e now uuid | q | x | | c | v | v | clock |];
    simpl ui_handler; try exact H.
  - simpl. constructor; [unfold well_timed; simpl; lia | exact H].
  - unfold keydown_handler. simpl. destruct (_ && _); [| exact H].
    simpl. constructor; [unfold well_timed; simpl; lia | exact H].
  - unfold handleSelectNote. destruct (find_note x (notes st)); exact H.
  - unfold handleDeleteClick. destruct c; [| exact H].
    destruct (selectedId st) as [x |]; [| exact H].
    destruct (handleDeleteNote_shape x st) as (sel & -> & _). simpl.
    apply Forall_forall. intros n Hn. apply filter_In in Hn.
    rewrite Forall_forall in H. now apply H.
  - simpl. now apply save_map_well_timed.
  - unfold handleCancel. destruct (selectedNote st); exact H.
Qed.

Lemma ui_created_le_updated_witness :
  Forall well_timed
         (notes (committed (ui_handler (FormSubmit (fun _ => 100)) st_a_blank_title))).
Proof.
  apply (ui_created_le_updated (FormSubmit (fun _ => 100)) st_a_blank_title).
  - constructor; [unfold well_timed; simpl; lia | constructor].
  - intros k n [<- | []]. simpl. lia.
Defined.

(** ** What a save and a delete leave alone *)

Lemma save_map_created (sel : option string) (buf : Buffer) (clock : nat -> Z)
    (k : nat) (prev : list Note) :
  map created (save_map sel buf clock k prev) = map created prev.
Proof.
  revert k. induction prev as [| n prev IH]; intros k; simpl; [reflexivity |].
  destruct (id_is_sel sel n); simpl; now rewrite IH.
Qed.

(** X11.  A save changes no id, no creation time, neither the number nor
    the order of the notes, no note whose id is not the selected one, and
    neither the selection, the search nor the edit buffer. *)
Theorem handleSaveNote_frame (clock : nat -> Z) (st : AppState) :
  let st' := committed (handleSaveNote clock st) in
  map id (notes st') = map id (notes st) /\
  map created (notes st') = map created (notes st) /\
  (forall i n, nth_error (notes st) i = Some n ->
               id_is_sel (selectedId st) n = false ->
               nth_error (notes st') i = Some n) /\
  selectedId st' = selectedId st /\
  searchQuery st' = searchQuery st /\
  editBuffer st' = editBuffer st.
Proof.
  simpl. split; [apply save_map_ids | split; [apply save_map_created |]].
  split; [| repeat split].
  intros i n Hn Hs. now apply save_map_nth_other.
Qed.

Lemma find_note_filter_other (x y : string) (l : list Note) :
  y <> x ->
  find_note y (filter (fun n => negb (id_is x n)) l) = find_note y l.
Proof.
  intros Hxy. unfold find_note. induction l as [| n l IH]; simpl; [reflexivity |].
  destruct (id_is x n) eqn:Ex; simpl.
  - destruct (id_is y n) eqn:Ey; [| exact IH].
    apply id_is_true in Ex. apply id_is_true in Ey. congruence.
  - now rewrite IH.
Qed.

Lemma absent_after_filter (x : string) (l : list Note) :
  absent x (filter (fun n => negb (id_is x n)) l).
Proof.
  intros n Hn. apply filter_In in Hn. destruct Hn as [_ Hn].
  apply negb_true_iff in Hn. now apply id_is_false.
Qed.

(** X12.  A delete ends normally; afterwards a lookup of the deleted id
    finds nothing, a lookup of any other id finds what it found before, the
    search and the edit buffer are untouched, and a second delete of the
    same id ends normally, leaves the collection as it is and clears the
    selection. *)
Theorem delete_then_get_absent (x : string) (st : AppState) :
  exists st' st'',
    handleDeleteNote x st = Ok st' /\
    find_note x (notes st') = None /\
    (forall y, y <> x -> find_note y (notes st') = find_note y (notes st)) /\
    searchQuery st' = searchQuery st /\
    editBuffer st' = editBuffer st /\
    handleDeleteNote x st' = Ok st'' /\
    notes st'' = notes st' /\
    selectedId st'' = None.
Proof.
  destruct (handleDeleteNote_shape x st) as (sel & H & _).
  set (l' := filter (fun n => negb (id_is x n)) (notes st)) in *.
  set (st' := setIsEditing false (setSelectedId sel (setNotes l' st))) in *.
  assert (Habs : absent x (notes st')) by apply absent_after_filter.
  exists st'.
  exists (setIsEditing false (setSelectedId None (setNotes (notes st') st'))).
  split; [exact H |]. split; [now apply find_note_absent |].
  split; [intros y Hy; now apply find_note_filter_other |].
  split; [reflexivity | split; [reflexivity |]].
  split; [| split; reflexivity].
  unfold handleDeleteNote. rewrite (filter_absent x (notes st') Habs).
  apply findIndex_absent in Habs. now rewrite Habs.
Qed.

(** A delete of the id of the head, when no other note has that id. *)
Lemma handleDeleteNote_head (x : string) (st : AppState) (n : Note)
    (l : list Note) :
  notes st = n :: l -> id n = x -> absent x l ->
  handleDeleteNote x st
  = Ok (setIsEditing false
          (setSelectedId (option_map id (hd_error l)) (setNotes l st))).
Proof.
  intros Hn Hid Habs. unfold handleDeleteNote. rewrite Hn.
  apply id_is_true in Hid. cbn [findIndex filter]. rewrite Hid. cbn [negb].
  rewrite (filter_absent x l Habs).
  destruct l as [| h t]; reflexivity.
Qed.

(** X13.  A create followed by a delete of the new note gives back the
    collection as it was, when the id of the new note was not in use; the
    head of the collection, if there is one, is then selected, and edit
    mode is left. *)
Theorem create_then_delete_restores (now : Z) (uuid : string)
    (st : AppState) :
  absent uuid (notes st) ->
  exists st1 st2,
    handleCreateNote now uuid st = Ok st1 /\
    handleDeleteNote uuid st1 = Ok st2 /\
    notes st2 = notes st /\
    selectedId st2 = option_map id (hd_error (notes st)) /\
    isEditing st2 = false.
Proof.
  intros Habs. eexists. eexists. split; [reflexivity |].
  split.
  - apply (handleDeleteNote_head uuid _ (mkNote uuid placeholder "" now now)
             (notes st)); [reflexivity | reflexivity | exact Habs].
  - repeat split.
Qed.

Lemma create_then_delete_restores_witness :
  exists st1 st2,
    handleCreateNote 7 "zz" st_ab = Ok st1 /\
    handleDeleteNote "zz" st1 = Ok st2 /\
    notes st2 = [note_a; note_b] /\
    selectedId st2 = Some "a" /\
    isEditing st2 = false.
Proof.
  exact (create_then_delete_restores 7 "zz" st_ab absent_zz_ab).
Defined.

(** ** The order of the sidebar *)

Lemma StronglySorted_filter (p : Note -> bool) (l : list Note) :
  StronglySorted newer_or_same l -> StronglySorted newer_or_same (filter p l).
Proof.
  induction 1 as [| a l Hs IH Ha]; simpl; [constructor |].
  destruct (p a); [| exact IH]. constructor; [exact IH |].
  apply Forall_forall. intros b Hb. apply filter_In in Hb.
  rewrite Forall_forall in Ha. now apply Ha.
Qed.

Lemma filter_comm (p q : Note -> bool) (l : list Note) :
  filter p (filter q l) = filter q (filter p l).
Proof.
  induction l as [| a l IH]; simpl; [reflexivity |].
  destruct (p a) eqn:Ep, (q a) eqn:Eq; simpl; rewrite ?Ep, ?Eq, IH; reflexivity.
Qed.

(** The sort and a filter can be done in either order. *)
Lemma js_sort_filter (p : Note -> bool) (l : list Note) :
  js_sort compareFn (filter p l) = filter p (js_sort compareFn l).
Proof.
  symmetry. apply js_sort_determined.
  - apply StronglySorted_filter, js_sort_sorted.
  - intros t. unfold with_updated.
    rewrite filter_comm, (filter_comm _ p l). f_equal. apply js_sort_stable.
Qed.

Lemma includes_inner (s pre q post : string) :
  JsString.includes s (pre ++ q ++ post) = true -> JsString.includes s q = true.
Proof.
  rewrite !includes_spec. intros (a & b & ->).
  exists (a ++ pre), (post ++ b). now rewrite !append_assoc.
Qed.

Lemma matches_inner (pre q post : string) (n : Note) :
  matches (pre ++ q ++ post) n = true -> matches q n = true.
Proof.
  unfold matches. rewrite !toLowerCase_append, !orb_true_iff.
  intros [H | H]; [left | right]; now apply includes_inner in H.
Qed.

Lemma filter_filter_implied (p q : Note -> bool) (l : list Note) :
  (forall n, p n = true -> q n = true) ->
  filter p (filter q l) = filter p l.
Proof.
  intros H. induction l as [| a l IH]; simpl; [reflexivity |].
  destruct (q a) eqn:Eq; simpl.
  - now rewrite IH.
  - destruct (p a) eqn:Ep; [| exact IH].
    apply H in Ep. congruence.
Qed.

(** On the strings of the model (code units below 256), a query that
    contains the query [q] gives the rows of the list for [q] that match
    the longer query, in the order they have in that list. *)
Lemma filteredNotes_narrowing (l : list Note) (pre q post : string) :
  filteredNotes l (pre ++ q ++ post)
  = filter (matches (pre ++ q ++ post)) (filteredNotes l q).
Proof.
  unfold filteredNotes. rewrite <- js_sort_filter. f_equal.
  symmetry. apply filter_filter_implied. intros n. apply matches_inner.
Qed.

(** A note that is newer than the notes in front of it and not older than
    the notes behind it comes first. *)
Lemma js_sort_head (pre post : list Note) (a : Note) :
  Forall (fun n => updated n < updated a) pre ->
  Forall (fun n => updated n <= updated a) post ->
  js_sort compareFn (pre ++ a :: post)%list
  = a :: js_sort compareFn (pre ++ post)%list.
Proof.
  intros Hpre Hpost. symmetry. apply js_sort_determined.
  - constructor; [apply js_sort_sorted |].
    apply (Permutation_Forall (Permutation_sym (js_sort_perm compareFn _))).
    apply Forall_app. split; [| exact Hpost].
    eapply Forall_impl; [| exact Hpre]. unfold newer_or_same.
    intros n Hn. simpl in Hn. lia.
  - intros t. rewrite with_updated_cons, js_sort_stable.
    unfold with_updated. rewrite !filter_app. simpl.
    destruct (Z.eqb_spec (updated a) t) as [<- | Hne]; [| reflexivity].
    assert (Hnil : filter (fun n => updated n =? updated a) pre = []).
    { clear Hpost. induction Hpre as [| n pre Hn _ IH]; simpl; [reflexivity |].
      destruct (Z.eqb_spec (updated n) (updated a)); [lia | exact IH]. }
    now rewrite Hnil.
Qed.

(** The list of a collection with a new note in front. *)
Lemma filteredNotes_new_note (now : Z) (uuid q : string) (l : list Note) :
  Forall (fun n => updated n <= now) l ->
  filteredNotes (mkNote uuid "Untitled Note" "" now now :: l) q
  = if JsString.includes "untitled note" (JsString.toLowerCase q)
    then mkNote uuid "Untitled Note" "" now now :: filteredNotes l q
    else filteredNotes l q.
Proof.
  intros H. unfold filteredNotes. cbn [filter].
  assert (Hm : matches q (mkNote uuid "Untitled Note" "" now now)
               = JsString.includes "untitled note" (JsString.toLowerCase q)).
  { unfold matches. cbn [title content]. 
    change (JsString.toLowerCase "Untitled Note") with "untitled note".
    change (JsString.toLowerCase "") with "".
    destruct (JsString.includes "untitled note" (JsString.toLowerCase q)) eqn:E;
      [reflexivity |].
    cbn [orb]. destruct (JsString.includes "" (JsString.toLowerCase q)) eqn:E2;
      [| reflexivity].
    apply includes_spec in E2. destruct E2 as (a & b & E2).
    destruct a; [| discriminate].
    destruct (JsString.toLowerCase q); [| discriminate].
    discriminate E. }
  rewrite Hm. destruct (JsString.includes "untitled note" (JsString.toLowerCase q));
    [| reflexivity].
  apply (js_sort_head [] (filter (matches q) l)); [constructor |].
  apply Forall_forall. intros n Hn. apply filter_In in Hn.
  rewrite Forall_forall in H. simpl. now apply H.
Qed.

(** X16.  When no note was updated after the time of a create, the new
    note is the first row of the sidebar if the query is contained in
    "Untitled Note" (whatever the case), and the other rows are the rows of
    before; if the query is not contained in it, the sidebar is the sidebar
    of before and the new note, though selected and open in the form, has
    no row. *)
Theorem created_note_first_row (now : Z) (uuid : string) (st : AppState) :
  Forall (fun n => updated n <= now) (notes st) ->
  exists st',
    handleCreateNote now uuid st = Ok st' /\
    note_detail st' = NoteForm (mkBuffer "Untitled Note" "") /\
    filteredNotes (notes st') (searchQuery st')
    = if JsString.includes "untitled note"
           (JsString.toLowerCase (searchQuery st))
      then mkNote uuid "Untitled Note" "" now now
             :: filteredNotes (notes st) (searchQuery st)
      else filteredNotes (notes st) (searchQuery st).
Proof.
  intros H. eexists. split; [reflexivity |]. split.
  - unfold note_detail, selectedNote. simpl. unfold id_is. simpl.
    now rewrite String.eqb_refl.
  - apply (filteredNotes_new_note now uuid (searchQuery st) (notes st) H).
Qed.

Definition st_abc_title : AppState :=
  mkApp [note_a; note_b; note_c] 0 "TITLE" None false (mkBuffer "" "").

Lemma created_note_first_row_witness :
  exists st',
    handleCreateNote 300 "zz" st_abc_title = Ok st' /\
    note_detail st' = NoteForm (mkBuffer "Untitled Note" "") /\
    filteredNotes (notes st') (searchQuery st')
    = mkNote "zz" "Untitled Note" "" 300 300
        :: filteredNotes [note_a; note_b; note_c] "TITLE".
Proof.
  apply (created_note_first_row 300 "zz" st_abc_title).
  repeat constructor; simpl; lia.
Defined.

Lemma save_map_at (x : string) (buf : Buffer) (clock : nat -> Z) (k : nat)
    (pre post : list Note) (n : Note) :
  absent x pre -> absent x post -> id n = x ->
  save_map (Some x) buf clock k (pre ++ n :: post)%list
  = (pre ++ saved buf (clock k) n :: post)%list.
Proof.
  intros Hpre Hpost Hid. induction pre as [| m pre IH]; simpl.
  - apply id_is_true in Hid. rewrite Hid. f_equal.
    apply save_map_no_match. intros p Hp. simpl.
    apply id_is_false. now apply Hpost.
  - apply absent_cons in Hpre. destruct Hpre as [Hm Hpre].
    apply id_is_false in Hm. rewrite Hm. f_equal. now apply IH.
Qed.

(** X17.  A save of the one note with the selected id, at a time later than
    the [updated] of every other note, moves the saved note to the first
    row of the sidebar of all notes; the other rows keep their order. *)
Theorem saved_note_first_row (clock : nat -> Z) (st : AppState) (x : string)
    (pre post : list Note) (n : Note) :
  selectedId st = Some x ->
  notes st = (pre ++ n :: post)%list ->
  id n = x -> absent x pre -> absent x post ->
  Forall (fun m => updated m < clock O) (pre ++ post)%list ->
  exists st' n',
    handleSaveNote clock st = Ok st' /\
    filteredNotes (notes st') "" = n' :: filteredNotes (pre ++ post)%list "" /\
    id n' = x /\
    content n' = buf_content (editBuffer st) /\
    updated n' = clock O.
Proof.
  intros Hsel Hnotes Hid Hpre Hpost Hnew.
  exists (committed (handleSaveNote clock st)),
         (saved (editBuffer st) (clock O) n).
  split; [reflexivity |]. split; [| now repeat split].
  cbn [handleSaveNote committed notes setNotes setIsEditing].
  rewrite Hsel, Hnotes, (save_map_at x _ clock O pre post n Hpre Hpost Hid).
  unfold filteredNotes. rewrite !filter_matches_empty.
  apply Forall_app in Hnew. destruct Hnew as [Hnpre Hnpost].
  apply js_sort_head; [exact Hnpre |].
  eapply Forall_impl; [| exact Hnpost]. intros m Hm. simpl in *. lia.
Qed.

Lemma absent_b_a : absent "b" [note_a].
Proof. intros m [<- | []]; simpl; discriminate. Defined.

Lemma absent_b_c : absent "b" [note_c].
Proof. intros m [<- | []]; simpl; discriminate. Defined.

Lemma saved_note_first_row_witness :
  exists st' n',
    handleSaveNote (fun _ => 400) st_abc = Ok st' /\
    filteredNotes (notes st') "" = n' :: filteredNotes [note_a; note_c] "" /\
    id n' = "b" /\
    content n' = "Report" /\
    updated n' = 400.
Proof.
  apply (saved_note_first_row (fun _ => 400) st_abc "b" [note_a] [note_c] note_b);
    try reflexivity.
  - exact absent_b_a.
  - exact absent_b_c.
  - repeat constructor; simpl; lia.
Defined.

(** ** A delete leaves the edit buffer alone *)

Lemma submit_from_form (w : World) (clock : nat -> Z) (p : Note) :
  selectedNote (app w) = Some p ->
  isEditing (app w) = true ->
  note_detail (app (ui_dispatch (FormSubmit clock) w))
  = NoteView (saved (editBuffer (app w)) (clock O) p).
Proof.
  intros Hp He. rewrite app_ui_dispatch.
  assert (Hr : rendered (FormSubmit clock) (app w) = true)
    by (simpl; unfold note_detail; now rewrite Hp, He).
  rewrite Hr. cbn [ui_handler handleSaveNote committed].
  unfold note_detail, selectedNote.
  cbn [notes selectedId isEditing setNotes setIsEditing].
  rewrite find_save_map. fold (selectedNote (app w)). now rewrite Hp.
Qed.

(** X18.  The delete handler does not touch the edit buffer: after the
    delete of the viewed note has selected another note, Edit opens the
    form with the buffer of before the delete, and Save writes that buffer
    into the newly selected note (its content, and its title unless that is
    blank), keeping its id and creation time. *)
Theorem delete_then_edit_saves_old_buffer (w : World) (n p : Note)
    (clock : nat -> Z) :
  note_detail (app w) = NoteView n ->
  selectedNote (app (ui_run w [DeleteClick true])) = Some p ->
  editBuffer (app (ui_run w [DeleteClick true])) = editBuffer (app w) /\
  note_detail (app (ui_run w [DeleteClick true; EditClick]))
  = NoteForm (editBuffer (app w)) /\
  exists p',
    note_detail
      (app (ui_run w [DeleteClick true; EditClick; FormSubmit clock]))
    = NoteView p' /\
    id p' = id p /\
    created p' = created p /\
    content p' = buf_content (editBuffer (app w)) /\
    title p' = (if all_space (buf_title (editBuffer (app w)))
                then "Untitled Note" else buf_title (editBuffer (app w))).
Proof.
  intros Hview Hp. cbn [ui_run] in *.
  set (w1 := ui_dispatch (DeleteClick true) w) in *.
  assert (H1 : editBuffer (app w1) = editBuffer (app w)
               /\ isEditing (app w1) = false).
  { unfold w1. rewrite app_ui_dispatch. simpl rendered. rewrite Hview.
    cbn [ui_handler handleDeleteClick].
    destruct (selectedId (app w)) as [x |]; [| split; reflexivity].
    destruct (handleDeleteNote_shape x (app w)) as (sel & -> & _).
    split; reflexivity. }
  destruct H1 as [Hbuf Hed].
  set (w2 := ui_dispatch EditClick w1).
  assert (H2 : app w2 = setIsEditing true (app w1)).
  { unfold w2. rewrite app_ui_dispatch. simpl rendered.
    unfold note_detail. now rewrite Hp, Hed. }
  assert (Hp2 : selectedNote (app w2) = Some p).
  { rewrite H2. rewrite (selectedNote_ext (app w1)) by reflexivity. exact Hp. }
  assert (He2 : isEditing (app w2) = true) by (rewrite H2; reflexivity).
  assert (Hb2 : editBuffer (app w2) = editBuffer (app w))
    by (rewrite H2; exact Hbuf).
  split; [exact Hbuf |]. split.
  - unfold note_detail. now rewrite Hp2, He2, Hb2.
  - exists (saved (editBuffer (app w)) (clock O) p).
    rewrite (submit_from_form w2 clock p Hp2 He2), Hb2.
    unfold saved. cbn [id title content created]. rewrite truthy_trim.
    repeat split. now destruct (all_space (buf_title (editBuffer (app w)))).
Qed.

Lemma delete_then_edit_saves_old_buffer_witness :
  editBuffer (app (ui_run w_view_b [DeleteClick true])) = mkBuffer "Work" "Report" /\
  note_detail (app (ui_run w_view_b [DeleteClick true; EditClick]))
  = NoteForm (mkBuffer "Work" "Report") /\
  exists p',
    note_detail
      (app (ui_run w_view_b
              [DeleteClick true; EditClick; FormSubmit (fun _ => 999)]))
    = NoteView p' /\
    id p' = "a" /\
    created p' = 100 /\
    content p' = "Report" /\
    title p' = "Work".
Proof.
  apply (delete_then_edit_saves_old_buffer w_view_b note_b note_a (fun _ => 999));
    reflexivity.
Defined.

(** ** The lines of the view *)

Fixpoint count_LF (s : string) : nat :=
  match s with
  | EmptyString => O
  | String c rest => if Ascii.eqb c LF then S (count_LF rest) else count_LF rest
  end.

(** The [<div>]s of [selectedNote.content.split("\n").map(...)]: [None] is
    the [<br />] of an empty line. *)
Definition content_lines (n : Note) : list (option string) :=
  map (fun line => if JsString.truthy line then Some line else None)
      (split_lines (content n)).

Lemma split_lines_spec (s : string) :
  JSON.join (String LF "") (split_lines s) = s /\
  List.length (split_lines s) = S (count_LF s) /\
  Forall (fun line => count_LF line = O) (split_lines s).
Proof.
  induction s as [| c s (Hj & Hl & Hf)]; [repeat split; repeat constructor |].
  cbn [split_lines count_LF]. destruct (Ascii.eqb_spec c LF) as [-> | Hc].
  - destruct (split_lines s) as [| line lines] eqn:E; [discriminate Hl |].
    split; [| split].
    + change (JSON.join (String LF "") ("" :: line :: lines))
        with ("" ++ String LF "" ++ JSON.join (String LF "") (line :: lines)).
      rewrite Hj. reflexivity.
    + simpl. simpl in Hl. lia.
    + constructor; [reflexivity | exact Hf].
  - destruct (split_lines s) as [| line lines] eqn:E; [discriminate Hl |].
    split; [| split].
    + rewrite <- Hj. destruct lines; reflexivity.
    + exact Hl.
    + inversion Hf as [| ? ? H0 Hrest]; subst. constructor; [| exact Hrest].
      simpl. apply Ascii.eqb_neq in Hc. now rewrite Hc.
Qed.

(** X19.  The view shows the content of a note as one line for each run
    between line feeds, one more than there are line feeds; no line holds a
    line feed, the lines joined by line feeds are the content, and a line
    is replaced by a line break exactly when it is empty. *)
Theorem content_lines_round_trip (n : Note) :
  JSON.join (String LF "") (split_lines (content n)) = content n /\
  List.length (content_lines n) = S (count_LF (content n)) /\
  Forall (fun line => count_LF line = O) (split_lines (content n)) /\
  Forall2 (fun line shown =>
             (line = "" /\ shown = None) \/ (line <> "" /\ shown = Some line))
          (split_lines (content n)) (content_lines n).
Proof.
  destruct (split_lines_spec (content n)) as (Hj & Hl & Hf).
  split; [exact Hj |]. split; [| split; [exact Hf |]].
  - unfold content_lines. now rewrite length_map.
  - unfold content_lines. clear. induction (split_lines (content n)) as [| l ls IH];
      simpl; constructor; [| exact IH].
    destruct l; [left | right]; split; try reflexivity. discriminate.
Qed.

Example content_lines_example :
  content_lines (mkNote "i" "t" ("ab" ++ String LF (String LF "c")) 0 0)
  = [Some "ab"; None; Some "c"].
Proof. reflexivity. Qed.

(** ** The keyboard shortcuts *)

Lemma lower_char_is (c : ascii) (l u : ascii) :
  (l = "n"%char /\ u = "N"%char) \/ (l = "f"%char /\ u = "F"%char) ->
  JsString.lower_char c = l <-> c = l \/ c = u.
Proof.
  intros [[-> ->] | [-> ->]];
    destruct c as [[|] [|] [|] [|] [|] [|] [|] [|]];
    (split; [intros H; try discriminate H; auto
            | intros [H | H]; try discriminate H; reflexivity]).
Qed.

Lemma toLowerCase_is_letter (k : string) (l u : ascii) :
  (l = "n"%char /\ u = "N"%char) \/ (l = "f"%char /\ u = "F"%char) ->
  String.eqb (JsString.toLowerCase k) (String l "") = true
  <-> k = String l "" \/ k = String u "".
Proof.
  intros Hlu. rewrite String.eqb_eq.
  destruct k as [| c [| d r]]; simpl.
  - split; [discriminate | intros [H | H]; discriminate].
  - split.
    + intros H. injection H as H. apply (lower_char_is c l u Hlu) in H.
      destruct H as [-> | ->]; auto.
    + intros [H | H]; injection H as ->; f_equal;
        apply (lower_char_is _ l u Hlu); auto.
  - split; [discriminate | intros [H | H]; discriminate].
Qed.

Definition modifier_down (e : KeyboardEvent) : Prop :=
  ctrlKey e = true \/ metaKey e = true.

(** X20.  The keydown listener does one of three things.  With Ctrl or Meta
    down and the key "n" or "N" it prevents the default action and runs the
    create handler, without a focus change.  With Ctrl or Meta down and
    the key "f" or "F" it prevents the default action and gives the focus
    to the search input, without a state change.  For every other event it
    does nothing at all. *)
Theorem keydown_handler_cases (e : KeyboardEvent) (now : Z) (uuid : string)
    (st : AppState) :
  (modifier_down e /\ (key e = "n" \/ key e = "N") /\
   keydown_handler e now uuid st
   = mkKeyResult true false (handleCreateNote now uuid st))
  \/
  (modifier_down e /\ (key e = "f" \/ key e = "F") /\
   keydown_handler e now uuid st = mkKeyResult true true (Ok st))
  \/
  (~ (modifier_down e /\
      (key e = "n" \/ key e = "N" \/ key e = "f" \/ key e = "F")) /\
   keydown_handler e now uuid st = mkKeyResult false false (Ok st)).
Proof.
  pose proof (toLowerCase_is_letter (key e) "n" "N"
                (or_introl (conj eq_refl eq_refl))) as Hn.
  pose proof (toLowerCase_is_letter (key e) "f" "F"
                (or_intror (conj eq_refl eq_refl))) as Hf.
  unfold keydown_handler, modifier_down.
  destruct (String.eqb (JsString.toLowerCase (key e)) "n") eqn:En;
    destruct (String.eqb (JsString.toLowerCase (key e)) "f") eqn:Ef.
  - apply String.eqb_eq in En. apply String.eqb_eq in Ef. congruence.
  - destruct (ctrlKey e) eqn:Ec; [| destruct (metaKey e) eqn:Em].
    + left. split; [now left | split; [now apply Hn | reflexivity]].
    + left. split; [now right | split; [now apply Hn | reflexivity]].
    + right. right. split; [| reflexivity].
      intros ([H | H] & _); discriminate.
  - destruct (ctrlKey e) eqn:Ec; [| destruct (metaKey e) eqn:Em].
    + right. left. split; [now left | split; [now apply Hf | reflexivity]].
    + right. left. split; [now right | split; [now apply Hf | reflexivity]].
    + right. right. split; [| reflexivity].
      intros ([H | H] & _); discriminate.
  - right. right. split.
    + intros (_ & [H | [H | [H | H]]]).
      * assert (T : false = true) by (apply Hn; auto). discriminate.
      * assert (T : false = true) by (apply Hn; auto). discriminate.
      * assert (T : false = true) by (apply Hf; auto). discriminate.
      * assert (T : false = true) by (apply Hf; auto). discriminate.
    + now rewrite !andb_false_r.
Qed.

Example keydown_examples :
  defaultPrevented (keydown_handler (mkKey false true "N") 1 "u" st_ab) = true
  /\ searchFocused (keydown_handler (mkKey true false "f") 1 "u" st_ab) = true
  /\ keydown_handler (mkKey false false "n") 1 "u" st_ab
     = mkKeyResult false false (Ok st_ab)
  /\ keydown_handler (mkKey true false "Enter") 1 "u" st_ab
     = mkKeyResult false false (Ok st_ab).
Proof. repeat split. Qed.

(** ** A click on a row *)

(** X21.  A click on a rendered sidebar row ends normally and shows the
    view of the first note of the collection with the id of the row: that
    note is selected, the edit buffer holds its title and its content, edit
    mode is left, and the collection and the search are untouched. *)
Theorem item_click_shows_note (x : string) (st : AppState) :
  rendered (ItemClick x) st = true ->
  exists st' n,
    ui_handler (ItemClick x) st = Ok st' /\
    find_note x (notes st) = Some n /\
    id n = x /\
    note_detail st' = NoteView n /\
    selectedId st' = Some x /\
    editBuffer st' = mkBuffer (title n) (content n) /\
    notes st' = notes st /\
    searchQuery st' = searchQuery st.
Proof.
  intros Hr. destruct (rendered_item x st Hr) as (n & Hn & Hid).
  eexists. exists n. cbn [ui_handler]. unfold handleSelectNote. rewrite Hn.
  split; [reflexivity |]. split; [reflexivity |]. split; [exact Hid |].
  split; [| repeat split].
  unfold note_detail. erewrite selectedNote_find by reflexivity.
  cbn [notes isEditing setEditBuffer setIsEditing setSelectedId].
  now rewrite Hn.
Qed.

Lemma item_click_shows_note_witness :
  exists st' n,
    ui_handler (ItemClick "b") st_search_work = Ok st' /\
    find_note "b" (notes st_search_work) = Some n /\
    id n = "b" /\
    note_detail st' = NoteView n /\
    selectedId st' = Some "b" /\
    editBuffer st' = mkBuffer (title n) (content n) /\
    notes st' = notes st_search_work /\
    searchQuery st' = searchQuery st_search_work.
Proof.
  apply (item_click_shows_note "b" st_search_work). vm_compute. reflexivity.
Defined.

(** ** The text of the durable slot *)

(** X22.  The text that the effect writes for a collection parses, as
    JSON, to a value that reads as that same collection, so that two
    collections that differ are never written as the same text. *)
Theorem stored_text_round_trip (l : list Note) :
  (exists v, JSON.parse (JSON.stringify l) = Some v
             /\ JSON.notes_of_json v = Some l) /\
  (forall l', JSON.stringify l = JSON.stringify l' -> l = l').
Proof.
  split.
  - exists (JSON.JArray (map JSONFacts.json_of_note l)).
    split; [apply JSONFacts.parse_stringify
           | apply JSONFacts.notes_of_json_stringified].
  - intros l' H.
    pose proof (JSONFacts.parse_stringify l) as H1.
    rewrite H, JSONFacts.parse_stringify in H1. injection H1 as H1.
    pose proof (JSONFacts.notes_of_json_stringified l) as H2.
    rewrite <- H1, JSONFacts.notes_of_json_stringified in H2.
    now injection H2.
Qed.

(** * The filter on strings of any code units

    [String.prototype.toLowerCase] is not a map of code units: a capital
    sigma is lower-cased by its context (Final_Sigma of the Unicode
    SpecialCasing data) and U+0130 becomes two code units.  This part embeds
    [filteredNotes] on strings of 16-bit code units, with the Unicode data
    of Basic Latin, Latin-1 Supplement, the Greek letters U+0386..U+03CE,
    U+0130 and U+0307 spelled out; a code unit outside this excerpt is left
    as it is.  The definitions above are this embedding on the strings of
    code units below 256 ([matches_units] below). *)

Module Wide.

Definition jsstring : Type := list N.

Definition within (lo hi u : N) : bool := ((lo <=? u) && (u <=? hi))%N.

Definition CAPITAL_SIGMA : N := 931.          (* U+03A3 *)
Definition FINAL_SIGMA : N := 962.            (* U+03C2 *)
Definition SMALL_SIGMA : N := 963.            (* U+03C3 *)
Definition CAPITAL_I_DOT : N := 304.          (* U+0130 *)
Definition COMBINING_DOT : N := 775.          (* U+0307 *)

(** Simple lower-case mapping (UnicodeData) of the code units of the
    excerpt. *)
Definition simple_lower (u : N) : N :=
  if within 65 90 u || within 192 214 u || within 216 222 u
     || within 913 929 u || within 931 939 u
  then (u + 32)%N
  else if (u =? 902)%N then (u + 38)%N
  else if within 904 906 u then (u + 37)%N
  else if (u =? 908)%N then (u + 64)%N
  else if within 910 911 u then (u + 63)%N
  else u.

(** The property Cased on the excerpt. *)
Definition cased (u : N) : bool :=
  within 65 90 u || within 97 122 u
  || (u =? 170)%N || (u =? 181)%N || (u =? 186)%N
  || within 192 214 u || within 216 246 u || within 248 255 u
  || (u =? 304)%N || (u =? 902)%N || within 904 906 u || (u =? 908)%N
  || within 910 929 u || within 931 974 u.

(** The property Case_Ignorable on the excerpt. *)
Definition case_ignorable (u : N) : bool :=
  existsb (N.eqb u) [39; 46; 58; 94; 96; 168; 173; 175; 180; 183; 184; 775; 903]%N.

(** The text that follows has a cased letter after any number of
    case-ignorable characters. *)
Fixpoint followed_by_cased (s : jsstring) : bool :=
  match s with
  | [] => false
  | u :: rest => if case_ignorable u then followed_by_cased rest else cased u
  end.

(** Lower-casing from a position; [before] tells whether the text in front
    ends with a cased letter and any number of case-ignorable characters.
    A capital sigma with such a text in front and no cased letter behind
    (Final_Sigma) becomes the final sigma. *)
Fixpoint lower_from (before : bool) (s : jsstring) : jsstring :=
  match s with
  | [] => []
  | u :: rest =>
      (if (u =? CAPITAL_SIGMA)%N
       then if before && negb (followed_by_cased rest)
            then [FINAL_SIGMA] else [SMALL_SIGMA]
       else if (u =? CAPITAL_I_DOT)%N then [105%N; COMBINING_DOT]
       else [simple_lower u])
      ++ lower_from (if case_ignorable u then before else cased u) rest
  end%list.

Definition toLowerCase (s : jsstring) : jsstring := lower_from false s.

Fixpoint startsWith (s q : jsstring) : bool :=
  match q, s with
  | [], _ => true
  | _ :: _, [] => false
  | b :: q', a :: s' => (a =? b)%N && startsWith s' q'
  end.

Fixpoint includes (s q : jsstring) : bool :=
  startsWith s q ||
  match s with
  | [] => false
  | _ :: s' => includes s' q
  end.

Record Note : Type := mkNote {
  id : jsstring;
  title : jsstring;
  content : jsstring;
  created : Z;
  updated : Z
}.

Definition matches (q : jsstring) (n : Note) : bool :=
  includes (toLowerCase (title n)) (toLowerCase q)
  || includes (toLowerCase (content n)) (toLowerCase q).

Definition compareFn (a b : Note) : Z := updated b - updated a.

Fixpoint sort_insert (cmp : Note -> Note -> Z) (a : Note) (l : list Note)
  : list Note :=
  match l with
  | [] => [a]
  | b :: rest =>
      if cmp a b <=? 0 then a :: b :: rest
      else b :: sort_insert cmp a rest
  end.

Fixpoint js_sort (cmp : Note -> Note -> Z) (l : list Note) : list Note :=
  match l with
  | [] => []
  | a :: rest => sort_insert cmp a (js_sort cmp rest)
  end.

Definition filteredNotes (l : list Note) (q : jsstring) : list Note :=
  js_sort compareFn (filter (matches q) l).

(** ** Lower-casing on examples *)

Example toLowerCase_final_sigma :
  toLowerCase [924; 917; 931]%N = [956; 949; 962]%N            (* ΜΕΣ -> μες *)
  /\ toLowerCase [924; 917; 931; 913]%N = [956; 949; 963; 945]%N   (* ΜΕΣΑ -> μεσα *)
  /\ toLowerCase [931]%N = [963]%N                             (* Σ -> σ *)
  /\ toLowerCase [65; 46; 931]%N = [97; 46; 962]%N             (* A.Σ -> a.ς *)
  /\ toLowerCase [65; 931; 46; 66]%N = [97; 963; 46; 98]%N     (* AΣ.B -> aσ.b *)
  /\ toLowerCase [49; 931]%N = [49; 963]%N                     (* 1Σ -> 1σ *)
  /\ toLowerCase [304]%N = [105; 775]%N.                       (* U+0130 *)
Proof. repeat split. Qed.

(** ** The list holds the notes that pass the test of the filter *)





Lemma startsWith_nil (s : jsstring) : startsWith s [] = true.
Proof. destruct s; reflexivity. Qed.


Lemma wide_startsWith_spec (s q : jsstring) :
  startsWith s q = true <-> exists post, s = (q ++ post)%list.
Proof.
  revert s. induction q as [| b q IH]; intros s.
  - rewrite startsWith_nil. split; [intros _; now exists s | reflexivity].
  - destruct s as [| a s]; simpl.
    + split; [discriminate | intros (post & H); discriminate].
    + rewrite andb_true_iff, N.eqb_eq, IH. split.
      * intros (-> & post & ->). now exists post.
      * intros (post & H). injection H as -> ->. split; [reflexivity | now exists post].
Qed.

Lemma wide_includes_spec (s q : jsstring) :
  includes s q = true <-> exists pre post, s = (pre ++ q ++ post)%list.
Proof.
  induction s as [| a s IH]; cbn [includes].
  - rewrite orb_false_r, wide_startsWith_spec. split.
    + intros (post & H). now exists [], post.
    + intros (pre & post & H). destruct pre; [now exists post | discriminate].
  - rewrite orb_true_iff, IH, wide_startsWith_spec. split.
    + intros [(post & H) | (pre & post & ->)].
      * now exists [], post.
      * now exists (a :: pre), post.
    + intros (pre & post & H). destruct pre as [| b pre].
      * left. now exists post.
      * right. simpl in H. injection H as _ ->. now exists pre, post.
Qed.

(** ** Strings of code units below 256 *)

Definition latin1 (s : jsstring) : bool := forallb (fun u => (u <? 256)%N) s.

(** Two code units below 256 that are the same letter, whatever the case:
    they are equal, or one is a capital letter (A..Z, or U+00C0..U+00DE
    without the multiplication sign) and the other is the code unit 32
    places further, its small letter. *)
Definition capital_of (u v : N) : Prop :=
  ((65 <= u <= 90) \/ (192 <= u <= 222 /\ u <> 215))%N /\ v = (u + 32)%N.

Definition same_letter (u v : N) : Prop :=
  u = v \/ capital_of u v \/ capital_of v u.

(** [s] contains [q] as a case-insensitive substring. *)
Definition contains_ignoring_case (s q : jsstring) : Prop :=
  exists pre mid post,
    s = (pre ++ mid ++ post)%list /\ Forall2 same_letter mid q.

Definition same_letter_b (u v : N) : bool :=
  let capital u v :=
    ((within 65 90 u || (within 192 222 u && negb (u =? 215)))
     && (v =? u + 32))%N in
  (u =? v)%N || capital u v || capital v u.

Lemma same_letter_reflect (u v : N) :
  same_letter_b u v = true <-> same_letter u v.
Proof.
  unfold same_letter_b, same_letter, capital_of, within.
  rewrite !orb_true_iff, !andb_true_iff, !orb_true_iff, !andb_true_iff,
    !negb_true_iff, !N.eqb_eq, !N.eqb_neq, !N.leb_le.
  tauto.
Qed.

Definition below256 : list N := map N.of_nat (seq 0 256).

Lemma below256_In (u : N) : (u < 256)%N -> In u below256.
Proof.
  intros H. unfold below256. apply in_map_iff. exists (N.to_nat u).
  split; [apply N2Nat.id |]. apply in_seq. lia.
Qed.

Lemma same_letter_table :
  forallb (fun u =>
             forallb (fun v =>
                        Bool.eqb (same_letter_b u v)
                                 (simple_lower u =? simple_lower v)%N)
                     below256)
          below256 = true.
Proof. vm_compute. reflexivity. Qed.

(** On code units below 256, being the same letter whatever the case is
    having the same lower-case mapping. *)
Lemma same_letter_lower (u v : N) :
  (u < 256)%N -> (v < 256)%N ->
  same_letter u v <-> simple_lower u = simple_lower v.
Proof.
  intros Hu Hv. pose proof same_letter_table as T.
  rewrite forallb_forall in T. specialize (T u (below256_In u Hu)).
  rewrite forallb_forall in T. specialize (T v (below256_In v Hv)).
  apply Bool.eqb_prop in T.
  rewrite <- same_letter_reflect, T. apply N.eqb_eq.
Qed.

Lemma latin1_app (a b : jsstring) :
  latin1 (a ++ b)%list = latin1 a && latin1 b.
Proof. apply forallb_app. Qed.

(** Below 256 there is no capital sigma and no U+0130: lower-casing is the
    map of [simple_lower]. *)
Lemma lower_from_latin1 (before : bool) (s : jsstring) :
  latin1 s = true -> lower_from before s = map simple_lower s.
Proof.
  revert before. induction s as [| u s IH]; intros before H; [reflexivity |].
  simpl in H. apply andb_true_iff in H. destruct H as [Hu Hs].
  apply N.ltb_lt in Hu. cbn [lower_from map].
  assert (H1 : (u =? CAPITAL_SIGMA)%N = false)
    by (apply N.eqb_neq; unfold CAPITAL_SIGMA; lia).
  assert (H2 : (u =? CAPITAL_I_DOT)%N = false)
    by (apply N.eqb_neq; unfold CAPITAL_I_DOT; lia).
  rewrite H1, H2. simpl. f_equal. now apply IH.
Qed.

Lemma Forall2_same_letter_lower (a b : jsstring) :
  latin1 a = true -> latin1 b = true ->
  Forall2 same_letter a b <-> map simple_lower a = map simple_lower b.
Proof.
  revert b. induction a as [| u a IH]; intros [| v b] Ha Hb; simpl.
  - split; [reflexivity | constructor].
  - split; [intros H; inversion H | discriminate].
  - split; [intros H; inversion H | discriminate].
  - simpl in Ha, Hb. apply andb_true_iff in Ha. apply andb_true_iff in Hb.
    destruct Ha as [Hu Ha]. destruct Hb as [Hv Hb].
    apply N.ltb_lt in Hu. apply N.ltb_lt in Hv. split.
    + intros H. inversion H as [| ? ? ? ? Huv Hab]; subst.
      f_equal; [now apply same_letter_lower | now apply IH].
    + intros H. injection H as Huv Hab.
      constructor; [now apply same_letter_lower | now apply IH].
Qed.

(** On strings of code units below 256 the test of the filter is
    containment whatever the case. *)
Lemma includes_lower_latin1 (s q : jsstring) :
  latin1 s = true -> latin1 q = true ->
  includes (toLowerCase s) (toLowerCase q) = true
  <-> contains_ignoring_case s q.
Proof.
  intros Hs Hq. unfold toLowerCase.
  rewrite (lower_from_latin1 false s Hs), (lower_from_latin1 false q Hq).
  rewrite wide_includes_spec. unfold contains_ignoring_case. split.
  - intros (u & v & H).
    apply map_eq_app in H. destruct H as (pre & r & -> & Hpre & Hr).
    apply map_eq_app in Hr. destruct Hr as (mid & post & -> & Hmid & Hpost).
    exists pre, mid, post. split; [reflexivity |].
    rewrite !latin1_app, !andb_true_iff in Hs.
    apply Forall2_same_letter_lower; tauto.
  - intros (pre & mid & post & -> & H).
    rewrite !latin1_app, !andb_true_iff in Hs.
    apply Forall2_same_letter_lower in H; [| tauto | exact Hq].
    exists (map simple_lower pre), (map simple_lower post).
    now rewrite !map_app, H.
Qed.

(** ** The claim on the list *)





End Wide.

(** ** The strings of the model are the strings of code units below 256 *)

Definition units (s : string) : Wide.jsstring := JSON.units_of_string s.

Definition widen (n : Note) : Wide.Note :=
  Wide.mkNote (units (id n)) (units (title n)) (units (content n))
              (created n) (updated n).

Lemma simple_lower_code (c : ascii) :
  Wide.simple_lower (JsString.code c) = JsString.code (JsString.lower_char c).
Proof. destruct c as [[|] [|] [|] [|] [|] [|] [|] [|]]; reflexivity. Qed.

Lemma latin1_units (s : string) : Wide.latin1 (units s) = true.
Proof.
  unfold units, JSON.units_of_string. induction s as [| c s IH];
    [reflexivity |].
  cbn [list_ascii_of_string map Wide.latin1 forallb]. apply andb_true_iff.
  split; [| exact IH]. apply N.ltb_lt. apply N_ascii_bounded.
Qed.

Lemma toLowerCase_units (s : string) :
  Wide.toLowerCase (units s) = units (JsString.toLowerCase s).
Proof.
  unfold Wide.toLowerCase. rewrite (Wide.lower_from_latin1 _ _ (latin1_units s)).
  unfold units, JSON.units_of_string. induction s as [| c s IH];
    [reflexivity |].
  cbn [list_ascii_of_string map JsString.toLowerCase].
  now rewrite simple_lower_code, IH.
Qed.

Lemma code_eqb (a b : ascii) :
  (JsString.code a =? JsString.code b)%N = Ascii.eqb a b.
Proof.
  destruct (Ascii.eqb_spec a b) as [-> | Hne]; [apply N.eqb_refl |].
  apply N.eqb_neq. intros H. apply Hne.
  rewrite <- (ascii_N_embedding a), <- (ascii_N_embedding b).
  unfold JsString.code in H. now rewrite H.
Qed.

Lemma startsWith_units (s q : string) :
  Wide.startsWith (units s) (units q) = JsString.startsWith s q.
Proof.
  revert s. induction q as [| b q IH]; intros s.
  - rewrite startsWith_empty. apply Wide.startsWith_nil.
  - destruct s as [| a s]; [reflexivity |].
    unfold units, JSON.units_of_string in *.
    cbn [list_ascii_of_string map Wide.startsWith JsString.startsWith].
    now rewrite code_eqb, IH.
Qed.

Lemma includes_units (s q : string) :
  Wide.includes (units s) (units q) = JsString.includes s q.
Proof.
  induction s as [| a s IH].
  - cbn [JsString.includes]. rewrite <- startsWith_units. reflexivity.
  - cbn [JsString.includes]. rewrite <- startsWith_units, <- IH. reflexivity.
Qed.

(** The test of the filter above is the test of this part on the same
    strings. *)
Lemma matches_units (q : string) (n : Note) :
  Wide.matches (units q) (widen n) = matches q n.
Proof.
  unfold Wide.matches, matches, widen. cbn [Wide.title Wide.content].
  now rewrite !toLowerCase_units, !includes_units.
Qed.

Lemma sort_insert_widen (a : Note) (l : list Note) :
  Wide.sort_insert Wide.compareFn (widen a) (map widen l)
  = map widen (sort_insert compareFn a l).
Proof.
  induction l as [| b l IH]; [reflexivity |].
  cbn [map Wide.sort_insert sort_insert].
  change (Wide.compareFn (widen a) (widen b)) with (compareFn a b).
  destruct (compareFn a b <=? 0); [reflexivity |].
  cbn [map]. now rewrite IH.
Qed.

(** The list above is the list of this part on the same strings. *)
Lemma filteredNotes_units (l : list Note) (q : string) :
  Wide.filteredNotes (map widen l) (units q) = map widen (filteredNotes l q).
Proof.
  unfold Wide.filteredNotes, filteredNotes.
  assert (Hf : filter (Wide.matches (units q)) (map widen l)
               = map widen (filter (matches q) l)).
  { induction l as [| n l IH]; [reflexivity |].
    cbn [map filter]. rewrite matches_units.
    destruct (matches q n); cbn [map]; now rewrite IH. }
  rewrite Hf. clear Hf. generalize (filter (matches q) l). intros r.
  induction r as [| a r IH]; [reflexivity |].
  cbn [map Wide.js_sort js_sort]. rewrite IH. apply sort_insert_widen.
Qed.

Lemma filter_matches_widen (l : list Note) (q : string) :
  filter (Wide.matches (units q)) (map widen l)
  = map widen (filter (matches q) l).
Proof.
  induction l as [| n l IH]; [reflexivity |].
  cbn [map filter]. rewrite matches_units.
  destruct (matches q n); cbn [map]; now rewrite IH.
Qed.

Lemma units_app (a b : string) : units (a ++ b) = (units a ++ units b)%list.
Proof.
  unfold units, JSON.units_of_string. induction a as [| c a IH];
    [reflexivity |].
  cbn [append list_ascii_of_string map]. now rewrite IH.
Qed.

(** A string of code units below 256 is a string of the model. *)
Lemma latin1_is_units (w : Wide.jsstring) :
  Wide.latin1 w = true -> exists s, units s = w.
Proof.
  induction w as [| u w IH]; intros H; [now exists "" |].
  simpl in H. apply andb_true_iff in H. destruct H as [Hu Hw].
  destruct (IH Hw) as (s & Hs). exists (String (ascii_of_N u) s).
  unfold units, JSON.units_of_string in *.
  cbn [list_ascii_of_string map]. rewrite Hs. f_equal.
  unfold JsString.code. apply N_ascii_embedding. now apply N.ltb_lt.
Qed.

Definition latin1_note (n : Wide.Note) : bool :=
  Wide.latin1 (Wide.id n) && Wide.latin1 (Wide.title n)
  && Wide.latin1 (Wide.content n).

Lemma latin1_notes_are_widened (l : list Wide.Note) :
  forallb latin1_note l = true -> exists l', map widen l' = l.
Proof.
  induction l as [| n l IH]; intros H; [now exists [] |].
  simpl in H. apply andb_true_iff in H. destruct H as [Hn Hl].
  destruct (IH Hl) as (l' & Hl'). unfold latin1_note in Hn.
  apply andb_true_iff in Hn. destruct Hn as [Hn Hc].
  apply andb_true_iff in Hn. destruct Hn as [Hi Ht].
  destruct (latin1_is_units _ Hi) as (i & Hi').
  destruct (latin1_is_units _ Ht) as (t & Ht').
  destruct (latin1_is_units _ Hc) as (c & Hc').
  exists (mkNote i t c (Wide.created n) (Wide.updated n) :: l').
  cbn [map]. rewrite Hl'. f_equal. unfold widen. cbn [id title content created updated].
  rewrite Hi', Ht', Hc'. now destruct n.
Qed.

(** X14.  When the titles, the contents and the query are made of code
    units below 256, a query that contains the query [q] (characters added
    in front or behind) gives the rows of the list for [q] that pass the
    test for the longer query, in the order they have in that list: typing
    more only removes rows and never reorders them.  (Beyond that range a
    longer query can add a row: a title that ends in a capital sigma
    followed by another letter is listed for the whole title as the query
    and not for the title up to the sigma.) *)
Theorem filteredNotes_narrowing_latin1 (l : list Wide.Note)
    (pre q post : Wide.jsstring) :
  forallb latin1_note l = true ->
  Wide.latin1 pre = true -> Wide.latin1 q = true -> Wide.latin1 post = true ->
  Wide.filteredNotes l (pre ++ q ++ post)%list
  = filter (Wide.matches (pre ++ q ++ post)%list) (Wide.filteredNotes l q).
Proof.
  intros Hl Hpre Hq Hpost.
  destruct (latin1_notes_are_widened l Hl) as (l' & <-).
  destruct (latin1_is_units pre Hpre) as (pre' & <-).
  destruct (latin1_is_units q Hq) as (q' & <-).
  destruct (latin1_is_units post Hpost) as (post' & <-).
  rewrite <- !units_app, !filteredNotes_units, filter_matches_widen.
  now rewrite filteredNotes_narrowing.
Qed.

Lemma filteredNotes_narrowing_latin1_witness :
  Wide.filteredNotes (map widen [note_a; note_b; note_c])
                     (units "g" ++ units "ROC" ++ units "eries a")%list
  = filter (Wide.matches (units "g" ++ units "ROC" ++ units "eries a")%list)
           (Wide.filteredNotes (map widen [note_a; note_b; note_c]) (units "ROC")).
Proof.
  apply (filteredNotes_narrowing_latin1 (map widen [note_a; note_b; note_c])
           (units "g") (units "ROC") (units "eries a")); reflexivity.
Defined.

(** On the strings of the model the test of the filter is containment of
    the query whatever the case of the letters. *)
Lemma matches_contains (q : string) (n : Note) :
  matches q n = true
  <-> Wide.contains_ignoring_case (units (title n)) (units q)
      \/ Wide.contains_ignoring_case (units (content n)) (units q).
Proof.
  rewrite <- matches_units. unfold Wide.matches, widen.
  cbn [Wide.title Wide.content]. rewrite orb_true_iff.
  now rewrite !Wide.includes_lower_latin1 by apply latin1_units.
Qed.

(** X15.  For every query the sidebar list is ordered by [updated],
    descending, and the row "No notes found." is shown exactly when the
    test of the filter fails for every note of the collection: neither the
    lower-cased title nor the lower-cased content includes the lower-cased
    query.  For titles, contents and a query made of code units below 256
    that is: no note has the query in its title or its content as a
    case-insensitive substring. *)
Theorem note_list_sorted_or_empty (st : AppState) :
  StronglySorted (fun a b => item_updated a >= item_updated b) (note_list st) /\
  (empty_list_shown st = true <->
   forall n, In n (notes st) ->
     JsString.includes (JsString.toLowerCase (title n))
                       (JsString.toLowerCase (searchQuery st)) = false
     /\ JsString.includes (JsString.toLowerCase (content n))
                          (JsString.toLowerCase (searchQuery st)) = false) /\
  (empty_list_shown st = true <->
   forall n, In n (notes st) ->
     ~ (Wide.contains_ignoring_case (units (title n)) (units (searchQuery st))
        \/ Wide.contains_ignoring_case (units (content n))
                                       (units (searchQuery st)))).
Proof.
  assert (Hin : forall n, In n (filteredNotes (notes st) (searchQuery st))
                          <-> In n (notes st) /\ matches (searchQuery st) n = true).
  { intros n. unfold filteredNotes. rewrite <- filter_In. split; intros H.
    - exact (Permutation_in n (js_sort_perm compareFn _) H).
    - exact (Permutation_in n (Permutation_sym (js_sort_perm compareFn _)) H). }
  assert (Hempty : empty_list_shown st = true <->
                   forall n, In n (notes st) -> matches (searchQuery st) n = false).
  { unfold empty_list_shown.
    destruct (filteredNotes (notes st) (searchQuery st)) as [| h t].
    - split; [| reflexivity]. intros _ n Hn.
      destruct (matches (searchQuery st) n) eqn:Hm; [| reflexivity].
      now elim (proj2 (Hin n) (conj Hn Hm)).
    - split; [discriminate |]. intros H. exfalso.
      destruct (proj1 (Hin h) (or_introl eq_refl)) as [Hh Hm].
      rewrite (H h Hh) in Hm. discriminate. }
  split; [| split].
  - unfold note_list, filteredNotes.
    generalize (js_sort_sorted (filter (matches (searchQuery st)) (notes st))).
    generalize (js_sort compareFn (filter (matches (searchQuery st)) (notes st))).
    intros l. induction 1 as [| a l Hs IH Ha]; simpl; constructor; [exact IH |].
    apply Forall_forall. intros it Hit. apply in_map_iff in Hit.
    destruct Hit as (b & <- & Hb). rewrite Forall_forall in Ha.
    specialize (Ha b Hb). unfold newer_or_same in Ha. simpl. lia.
  - rewrite Hempty. split; intros H n Hn; specialize (H n Hn).
    + now apply orb_false_iff.
    + unfold matches. now apply orb_false_iff.
  - rewrite Hempty. split; intros H n Hn; specialize (H n Hn).
    + intros Hc. apply matches_contains in Hc. congruence.
    + destruct (matches (searchQuery st) n) eqn:Hm; [| reflexivity].
      elim H. now apply matches_contains.
Qed.
